(** * Elasticsearch exporter: the snapshot and indices-settings collectors

    A shallow embedding of [collector/snapshots.go] and
    [collector/indices_settings.go], and the properties of their
    Describe/Collect pull protocol.

    Conventions of the embedding:
    - a Go [float64] is an IEEE-754 binary64 value ([spec_float] with
      precision 53 and maximal exponent 1024); [float64(n)] on an integer is
      rounding to nearest even;
    - a Go [int64] is a [Z] in the range [-2^63, 2^63), with the wrap-around
      of the arithmetic written out;
    - a Go map with string keys is a [gmap string _]; a [range] over it visits
      the entries in an order the runtime chooses;
    - a slice is a [list] (the nil slice is the empty list);
    - the receiver struct is passed and returned explicitly; the logger field
      holds the lines logged so far and the client field the state of the
      world behind the HTTP client;
    - a function that may panic returns an [option] ([None] is the panic);
    - the channel a collector sends on is the list of what was sent. *)

From Stdlib Require Import ZArith String List Lia.
From Stdlib Require Import SpecFloat.
From stdpp Require Import base option list strings gmap fin_maps.

Local Open Scope string_scope.
Local Open Scope Z_scope.
Local Open Scope list_scope.

(** ** Numbers *)

Definition float64 : Type := spec_float.

(** The conversion [float64(z)] of an integer. *)
Definition float64_of_int (z : Z) : float64 := binary_normalize 53 1024 z 0 false.

(** The range of [int64] and its wrap-around. *)
Definition is_int64 (z : Z) : Prop := - 2 ^ 63 <= z < 2 ^ 63.

Definition int64_wrap (z : Z) : Z := (z + 2 ^ 63) mod 2 ^ 64 - 2 ^ 63.

(** [x / y] on [int64] for a non-zero constant [y]: the quotient truncated
    toward zero. *)
Definition int64_quo (x y : Z) : Z := int64_wrap (Z.quot x y).

(** [q] is [t] divided by 1000 and rounded toward zero: the whole seconds of
    [t] milliseconds. *)
Definition wholeSeconds (t q : Z) : Prop :=
  (0 <= t -> 1000 * q <= t < 1000 * q + 1000)
  /\ (t <= 0 -> 1000 * q - 1000 < t <= 1000 * q).

Arguments float64_of_int : simpl never.
Arguments int64_quo : simpl never.

(** [len(l)]. *)
Definition len {A : Type} (l : list A) : Z := Z.of_nat (length l).

(** [l[i]]: panics when [i] is out of range. *)
Definition index {A : Type} (l : list A) (i : Z) : option A :=
  if (i <? 0) then None else l !! Z.to_nat i.

(** ** URLs, HTTP responses and errors *)

Record URL : Type := mkURL {
  Scheme : string;
  Hostname : string;
  Port : string;
  Path : string
}.

Definition set_Path (p : string) (u : URL) : URL :=
  {| Scheme := Scheme u; Hostname := Hostname u; Port := Port u; Path := p |}.

(** What [http.Client.Get] hands back when the request went through: the
    status code, the body, and what closing the body will answer. *)
Record Response : Type := mkResponse {
  StatusCode : Z;
  Body : string;
  CloseErr : option string
}.

Definition StatusOK : Z := 200.

(** The errors of this package, by the place that builds them. *)
Inductive error : Type :=
| GetError (u : URL) (cause : string)
    (* fmt.Errorf("failed to get from %s://%s:%s%s: %s", ...) *)
| StatusError (code : Z)
    (* fmt.Errorf("HTTP Request failed with code %d", res.StatusCode) *)
| DecodeError (cause : string)
    (* the error of json.Decoder.Decode, returned as it is *)
| CloseError (cause : string).
    (* the error of res.Body.Close() *)

(** A line written through [level.Warn(logger).Log("msg", _, "err", _)]. *)
Inductive LogEntry : Type :=
| Warn (msg : string) (err : error).

Definition isDecodeError (e : error) : bool :=
  match e with DecodeError _ => true | _ => false end.

(** The outcome of a fetch: did it succeed, did it fail in the JSON
    decoder. *)
Definition isOk {A : Type} (r : error + A) : bool :=
  match r with inr _ => true | inl _ => false end.

Definition parseFailed {A : Type} (r : error + A) : bool :=
  match r with inl e => isDecodeError e | inr _ => false end.

(** ** Payloads *)

(** Modelled from the spec: the struct declarations of the decoded payloads
    are not part of the two source files.  A detail payload is an ordered
    record sequence, each record carrying start and end timestamps in epoch
    milliseconds, a state and a version label, the indices, the failures and
    the shard counts (total, failed, successful); the discovery payload maps
    a repository name to an opaque configuration.  The fields used by the
    collectors keep the names the source reads them under. *)
Record ShardCounts : Type := mkShards {
  Total : Z;
  Failed : Z;
  Successful : Z
}.

Record SnapshotStatDataResponse : Type := mkSnapshot {
  Version : string;
  Indices : list string;
  State : string;
  StartTimeInMillis : Z;
  EndTimeInMillis : Z;
  Failures : list string;
  Shards : ShardCounts
}.

(** The field [Snapshots] of the Go struct; the collector struct owns that
    name here. *)
Record SnapshotStatsResponse : Type := mkStats {
  ssr_Snapshots : list SnapshotStatDataResponse
}.

Abbreviation SnapshotRepositoriesResponse := (gmap string string).

(** Modelled from the spec: the settings payload is declared outside the two
    source files; the collector reads
    [value.Settings.IndexInfo.Blocks.ReadOnly] of every entry. *)
Record BlocksT : Type := mkBlocks { ReadOnly : string }.
Record IndexInfoT : Type := mkIndexInfo { Blocks : BlocksT }.
Record SettingsT : Type := mkSettings { IndexInfo : IndexInfoT }.
Record Index : Type := mkIndex { Settings : SettingsT }.

Abbreviation IndicesSettingsResponse := (gmap string Index).

(** ** What the collectors take from outside

    The HTTP client, the JSON decoder, [path.Join], [url.String], the package
    constant
    [namespace], the helper [constLabelsFromURL] and the order in which a [range]
    visits a map. *)
Class Runtime : Type := {
  World : Type;
  http_Get : URL -> World -> (Response + string) * World;
  path_Join : list string -> string;
  url_String : URL -> string;
  namespace : string;
  constLabelsFromURL : URL -> gmap string string;
  decodeRepositories : string -> string + SnapshotRepositoriesResponse;
  decodeSnapshotStats : string -> string + SnapshotStatsResponse;
  decodeIndicesSettings : string -> string + IndicesSettingsResponse;
  map_range : forall A : Type, gmap string A -> list (string * A);
  map_range_perm : forall (A : Type) (m : gmap string A),
      map_range A m ≡ₚ map_to_list m
}.

Arguments map_range {_ _} _.

(** ** The metrics library *)

Inductive ValueType : Type := CounterValue | GaugeValue | UntypedValue.

Record Desc : Type := mkDesc {
  fqName : string;
  help : string;
  variableLabels : list string;
  constLabels : gmap string string
}.

Definition NewDesc (name hlp : string) (labels : list string)
    (cl : gmap string string) : Desc :=
  {| fqName := name; help := hlp; variableLabels := labels; constLabels := cl |}.

Definition BuildFQName (ns subsystem name : string) : string :=
  if String.eqb name "" then ""
  else if negb (String.eqb ns "") && negb (String.eqb subsystem "")
       then ns +:+ "_" +:+ subsystem +:+ "_" +:+ name
  else if negb (String.eqb ns "") then ns +:+ "_" +:+ name
  else if negb (String.eqb subsystem "") then subsystem +:+ "_" +:+ name
  else name.

Arguments BuildFQName : simpl never.

(** A gauge holds the value last set.  A counter holds the number of [Inc]
    calls; the library keeps it in a uint64, whose wrap-around after 2^64
    calls is left out. *)
Record Gauge : Type := mkGauge { gaugeDesc : Desc; gaugeValue : float64 }.
Record Counter : Type := mkCounter { counterDesc : Desc; counterValue : N }.

Definition NewGauge (name hlp : string) (cl : gmap string string) : Gauge :=
  {| gaugeDesc := NewDesc name hlp [] cl; gaugeValue := float64_of_int 0 |}.

Definition NewCounter (name hlp : string) (cl : gmap string string) : Counter :=
  {| counterDesc := NewDesc name hlp [] cl; counterValue := 0%N |}.

Definition Gauge_Set (v : float64) (g : Gauge) : Gauge :=
  {| gaugeDesc := gaugeDesc g; gaugeValue := v |}.

Definition Counter_Inc (c : Counter) : Counter :=
  {| counterDesc := counterDesc c; counterValue := N.succ (counterValue c) |}.

(** A vector of gauges (counters) with the single variable label "url": the
    children created so far, by the value of that label. *)
Record GaugeVec : Type := mkGaugeVec {
  gvDesc : Desc;
  gvChildren : gmap string float64
}.

Record CounterVec : Type := mkCounterVec {
  cvDesc : Desc;
  cvChildren : gmap string N
}.

Definition NewGaugeVec (name hlp : string) (labels : list string) : GaugeVec :=
  {| gvDesc := NewDesc name hlp labels ∅; gvChildren := ∅ |}.

Definition NewCounterVec (name hlp : string) (labels : list string) : CounterVec :=
  {| cvDesc := NewDesc name hlp labels ∅; cvChildren := ∅ |}.

(** [vec.WithLabelValues(lv)] creates the child when it is not there yet. *)
Definition GaugeVec_With (lv : string) (v : GaugeVec) : GaugeVec :=
  match gvChildren v !! lv with
  | Some _ => v
  | None => {| gvDesc := gvDesc v;
               gvChildren := <[lv := float64_of_int 0]> (gvChildren v) |}
  end.

Definition CounterVec_With (lv : string) (v : CounterVec) : CounterVec :=
  match cvChildren v !! lv with
  | Some _ => v
  | None => {| cvDesc := cvDesc v; cvChildren := <[lv := 0%N]> (cvChildren v) |}
  end.

(** [vec.WithLabelValues(lv).Set(x)] *)
Definition GaugeVec_Set (lv : string) (x : float64) (v : GaugeVec) : GaugeVec :=
  {| gvDesc := gvDesc v; gvChildren := <[lv := x]> (gvChildren v) |}.

(** [vec.WithLabelValues(lv).Inc()] *)
Definition CounterVec_Inc (lv : string) (v : CounterVec) : CounterVec :=
  {| cvDesc := cvDesc v;
     cvChildren := <[lv := N.succ (default 0%N (cvChildren v !! lv))]> (cvChildren v) |}.

(** The value a reader finds in a child. *)
Definition GaugeVec_value (lv : string) (v : GaugeVec) : option float64 :=
  gvChildren v !! lv.

Definition CounterVec_value (lv : string) (v : CounterVec) : N :=
  default 0%N (cvChildren v !! lv).

(** [MustNewConstMetric(desc, valueType, value, labelValues...)] panics when
    the number of label values is not the number of variable labels of the
    descriptor.  (The library also refuses a descriptor that was built with
    an error and a label value that is not UTF-8; the descriptors here are
    built once from constant names and the label values come out of the JSON
    decoder, so the arity is the check that is modelled.) *)
Inductive ConstMetric : Type :=
| mkConstMetric (desc : Desc) (valType : ValueType) (value : float64)
    (labelValues : list string).

Definition MustNewConstMetric (desc : Desc) (valType : ValueType)
    (value : float64) (labelValues : list string) : option ConstMetric :=
  if Nat.eqb (length labelValues) (length (variableLabels desc))
  then Some (mkConstMetric desc valType value labelValues)
  else None.

Definition cm_desc (m : ConstMetric) : Desc :=
  match m with mkConstMetric d _ _ _ => d end.
Definition cm_value (m : ConstMetric) : float64 :=
  match m with mkConstMetric _ _ v _ => v end.
Definition cm_labelValues (m : ConstMetric) : list string :=
  match m with mkConstMetric _ _ _ l => l end.

(** ** Sending on a channel, with panics

    A computation that sends on the channel and may panic: what it sent, and
    its result ([None] when it panicked; what was sent before stays sent). *)
Definition Emit (M A : Type) : Type := list M * option A.

Definition emit_ret {M A : Type} (x : A) : Emit M A := ([], Some x).

Definition emit_bind {M A B : Type} (c : Emit M A) (k : A -> Emit M B) : Emit M B :=
  match c with
  | (sent, None) => (sent, None)
  | (sent, Some x) => let '(sent', r) := k x in (sent ++ sent', r)
  end.

Definition send {M : Type} (m : M) : Emit M unit := ([m], Some tt).

(** Running a step that sends nothing itself. *)
Definition lift {M A : Type} (o : option A) : Emit M A := ([], o).

Notation "x <~ c ;; k" := (emit_bind c (fun x => k))
  (at level 100, c at next level, right associativity).

(** [for _, x := range l { body }] *)
Fixpoint for_each {M A : Type} (l : list A) (body : A -> Emit M unit) : Emit M unit :=
  match l with
  | [] => emit_ret tt
  | x :: l' => _ <~ body x ;; for_each l' body
  end.

(** ** The snapshots collector ([collector/snapshots.go]) *)

Module snapshots.

Record snapshotMetric : Type := mkSnapshotMetric {
  sm_Type : ValueType;
  sm_Desc : Desc;
  sm_Value : SnapshotStatDataResponse -> option float64;
  sm_Labels : string -> SnapshotStatDataResponse -> list string
}.

Record repositoryMetric : Type := mkRepositoryMetric {
  rm_Type : ValueType;
  rm_Desc : Desc;
  rm_Value : SnapshotStatsResponse -> option float64;
  rm_Labels : string -> list string
}.

Definition defaultSnapshotLabels : list string := ["repository"; "state"; "version"].

Definition defaultSnapshotLabelValues (repositoryName : string)
    (snapshotStats : SnapshotStatDataResponse) : list string :=
  [repositoryName; State snapshotStats; Version snapshotStats].

Definition defaultSnapshotRepositoryLabels : list string := ["repository"].

Definition defaultSnapshotRepositoryLabelValues (repositoryName : string) : list string :=
  [repositoryName].

(** What a collector sends on the channel of Collect: a constant metric
    built for the occasion, or one of its own three metrics, sent by
    reference and read by the receiver afterwards. *)
Inductive Metric : Type :=
| Const (m : ConstMetric)
| GaugeUp
| CounterTotalScrapes
| CounterJsonParseFailures.

Section model.
Context {rt : Runtime}.

Record Snapshots : Type := mkSnapshots {
  logger : list LogEntry;
  client : World;
  url : URL;
  up : Gauge;
  totalScrapes : Counter;
  jsonParseFailures : Counter;
  snapshotMetrics : list snapshotMetric;
  repositoryMetrics : list repositoryMetric
}.

Definition set_logger (l : list LogEntry) (s : Snapshots) : Snapshots :=
  mkSnapshots l (client s) (url s) (up s) (totalScrapes s) (jsonParseFailures s)
    (snapshotMetrics s) (repositoryMetrics s).
Definition set_client (w : World) (s : Snapshots) : Snapshots :=
  mkSnapshots (logger s) w (url s) (up s) (totalScrapes s) (jsonParseFailures s)
    (snapshotMetrics s) (repositoryMetrics s).
Definition set_up (g : Gauge) (s : Snapshots) : Snapshots :=
  mkSnapshots (logger s) (client s) (url s) g (totalScrapes s) (jsonParseFailures s)
    (snapshotMetrics s) (repositoryMetrics s).
Definition set_totalScrapes (c : Counter) (s : Snapshots) : Snapshots :=
  mkSnapshots (logger s) (client s) (url s) (up s) c (jsonParseFailures s)
    (snapshotMetrics s) (repositoryMetrics s).
Definition set_jsonParseFailures (c : Counter) (s : Snapshots) : Snapshots :=
  mkSnapshots (logger s) (client s) (url s) (up s) (totalScrapes s) c
    (snapshotMetrics s) (repositoryMetrics s).

(** The per-latest-record table of [NewSnapshots]. *)
Definition newSnapshotMetrics (cl : gmap string string) : list snapshotMetric :=
  [ {| sm_Type := GaugeValue;
       sm_Desc := NewDesc
         (BuildFQName namespace "snapshot_stats" "snapshot_number_of_indices")
         "Number of indices in the last snapshot"
         defaultSnapshotLabels cl;
       sm_Value := fun snapshotStats =>
         Some (float64_of_int (len (Indices snapshotStats)));
       sm_Labels := defaultSnapshotLabelValues |};
    {| sm_Type := GaugeValue;
       sm_Desc := NewDesc
         (BuildFQName namespace "snapshot_stats" "snapshot_start_time_timestamp")
         "Last snapshot start timestamp"
         defaultSnapshotLabels cl;
       sm_Value := fun snapshotStats =>
         Some (float64_of_int (int64_quo (StartTimeInMillis snapshotStats) 1000));
       sm_Labels := defaultSnapshotLabelValues |};
    {| sm_Type := GaugeValue;
       sm_Desc := NewDesc
         (BuildFQName namespace "snapshot_stats" "snapshot_end_time_timestamp")
         "Last snapshot end timestamp"
         defaultSnapshotLabels cl;
       sm_Value := fun snapshotStats =>
         Some (float64_of_int (int64_quo (EndTimeInMillis snapshotStats) 1000));
       sm_Labels := defaultSnapshotLabelValues |};
    {| sm_Type := GaugeValue;
       sm_Desc := NewDesc
         (BuildFQName namespace "snapshot_stats" "snapshot_number_of_failures")
         "Last snapshot number of failures"
         defaultSnapshotLabels cl;
       sm_Value := fun snapshotStats =>
         Some (float64_of_int (len (Failures snapshotStats)));
       sm_Labels := defaultSnapshotLabelValues |};
    {| sm_Type := GaugeValue;
       sm_Desc := NewDesc
         (BuildFQName namespace "snapshot_stats" "snapshot_total_shards")
         "Last snapshot total shards"
         defaultSnapshotLabels cl;
       sm_Value := fun snapshotStats =>
         Some (float64_of_int (Total (Shards snapshotStats)));
       sm_Labels := defaultSnapshotLabelValues |};
    {| sm_Type := GaugeValue;
       sm_Desc := NewDesc
         (BuildFQName namespace "snapshot_stats" "snapshot_failed_shards")
         "Last snapshot failed shards"
         defaultSnapshotLabels cl;
       sm_Value := fun snapshotStats =>
         Some (float64_of_int (Failed (Shards snapshotStats)));
       sm_Labels := defaultSnapshotLabelValues |};
    {| sm_Type := GaugeValue;
       sm_Desc := NewDesc
         (BuildFQName namespace "snapshot_stats" "snapshot_successful_shards")
         "Last snapshot successful shards"
         defaultSnapshotLabels cl;
       sm_Value := fun snapshotStats =>
         Some (float64_of_int (Successful (Shards snapshotStats)));
       sm_Labels := defaultSnapshotLabelValues |} ].

(** The per-repository table of [NewSnapshots]. *)
Definition newRepositoryMetrics (cl : gmap string string) : list repositoryMetric :=
  [ {| rm_Type := GaugeValue;
       rm_Desc := NewDesc
         (BuildFQName namespace "snapshot_stats" "number_of_snapshots")
         "Number of snapshots in a repository"
         defaultSnapshotRepositoryLabels cl;
       rm_Value := fun snapshotsStats =>
         Some (float64_of_int (len (ssr_Snapshots snapshotsStats)));
       rm_Labels := defaultSnapshotRepositoryLabelValues |};
    {| rm_Type := GaugeValue;
       rm_Desc := NewDesc
         (BuildFQName namespace "snapshot_stats" "oldest_snapshot_timestamp")
         "Timestamp of the oldest snapshot"
         defaultSnapshotRepositoryLabels cl;
       rm_Value := fun snapshotsStats =>
         if len (ssr_Snapshots snapshotsStats) =? 0
         then Some (float64_of_int 0)
         else
           first ← index (ssr_Snapshots snapshotsStats) 0;
           Some (float64_of_int (int64_quo (StartTimeInMillis first) 1000));
       rm_Labels := defaultSnapshotRepositoryLabelValues |} ].

Definition NewSnapshots (lg : list LogEntry) (cl : World) (u : URL) : Snapshots :=
  let constLabels := constLabelsFromURL u in
  {| logger := lg;
     client := cl;
     url := u;
     up := NewGauge (BuildFQName namespace "snapshot_stats" "up")
       "Was the last scrape of the ElasticSearch snapshots endpoint successful."
       constLabels;
     totalScrapes := NewCounter (BuildFQName namespace "snapshot_stats" "total_scrapes")
       "Current total ElasticSearch snapshots scrapes."
       constLabels;
     jsonParseFailures :=
       NewCounter (BuildFQName namespace "snapshot_stats" "json_parse_failures")
       "Number of errors while parsing JSON."
       constLabels;
     snapshotMetrics := newSnapshotMetrics constLabels;
     repositoryMetrics := newRepositoryMetrics constLabels |}.

Definition Describe (s : Snapshots) : list Desc :=
  map sm_Desc (snapshotMetrics s)
  ++ [gaugeDesc (up s); counterDesc (totalScrapes s); counterDesc (jsonParseFailures s)].

(** The deferred closing of the body in [getAndParseURL]: a failure to close
    is logged as a warning. *)
Definition closeBody (res : Response) (s : Snapshots) : Snapshots :=
  match CloseErr res with
  | None => s
  | Some e => set_logger (logger s ++ [Warn "failed to close http.Client" (CloseError e)]) s
  end.

(** [getAndParseURL(u, &data)]: the decoder is the one of the type of [data];
    the result is the error, or the value left in [data]. *)
Definition getAndParseURL {A : Type} (decode : string -> string + A)
    (s : Snapshots) (u : URL) : Snapshots * (error + A) :=
  let '(res, w) := http_Get u (client s) in
  let s := set_client w s in
  match res with
  | inr err => (s, inl (GetError u err))
  | inl res =>
      if negb (StatusCode res =? StatusOK)
      then (closeBody res s, inl (StatusError (StatusCode res)))
      else match decode (Body res) with
           | inl err =>
               let s := set_jsonParseFailures (Counter_Inc (jsonParseFailures s)) s in
               (closeBody res s, inl (DecodeError err))
           | inr data => (closeBody res s, inr data)
           end
  end.

Definition repositoriesURL (s : Snapshots) : URL :=
  set_Path (path_Join [Path (url s); "/_snapshot"]) (url s).

Definition repositoryURL (s : Snapshots) (repository : string) : URL :=
  set_Path (path_Join [Path (url s); "/_snapshot"; repository; "/_all"]) (url s).

(** One turn of the loop of [fetchAndDecodeSnapshotsStats]. *)
Definition fetchRepository (acc : Snapshots * gmap string SnapshotStatsResponse)
    (repository : string) : Snapshots * gmap string SnapshotStatsResponse :=
  let '(s, mssr) := acc in
  let '(s, r) := getAndParseURL decodeSnapshotStats s (repositoryURL s repository) in
  match r with
  | inl _ => (s, mssr)
  | inr ssr => (s, <[repository := ssr]> mssr)
  end.

Definition fetchAndDecodeSnapshotsStats (s : Snapshots)
    : Snapshots * (error + gmap string SnapshotStatsResponse) :=
  let mssr : gmap string SnapshotStatsResponse := ∅ in
  let '(s, r) := getAndParseURL decodeRepositories s (repositoriesURL s) in
  match r with
  | inl err => (s, inl err)
  | inr srr =>
      let '(s, mssr) := foldl fetchRepository (s, mssr) (map_range srr).*1 in
      (s, inr mssr)
  end.

(** One turn of the outer loop of [Collect]. *)
Definition collectRepository (s : Snapshots) (repositoryName : string)
    (snapshotStats : SnapshotStatsResponse) : Emit Metric unit :=
  _ <~ for_each (repositoryMetrics s) (fun metric =>
         v <~ lift (rm_Value metric snapshotStats) ;;
         m <~ lift (MustNewConstMetric (rm_Desc metric) (rm_Type metric) v
                      (rm_Labels metric repositoryName)) ;;
         send (Const m)) ;;
  if len (ssr_Snapshots snapshotStats) =? 0 then emit_ret tt
  else
    lastSnapshot <~ lift (index (ssr_Snapshots snapshotStats)
                            (len (ssr_Snapshots snapshotStats) - 1)) ;;
    for_each (snapshotMetrics s) (fun metric =>
      v <~ lift (sm_Value metric lastSnapshot) ;;
      m <~ lift (MustNewConstMetric (sm_Desc metric) (sm_Type metric) v
                   (sm_Labels metric repositoryName lastSnapshot)) ;;
      send (Const m)).

(** What the deferred function of [Collect] sends. *)
Definition bookkeeping : list Metric :=
  [GaugeUp; CounterTotalScrapes; CounterJsonParseFailures].

(** [Collect(ch)]: the collector afterwards, what was sent on [ch], and
    whether Collect returned ([Some tt]) or panicked ([None]); the deferred
    function runs in both cases. *)
Definition Collect (s : Snapshots) : Snapshots * Emit Metric unit :=
  let s := set_totalScrapes (Counter_Inc (totalScrapes s)) s in
  let '(s, r) := fetchAndDecodeSnapshotsStats s in
  match r with
  | inl err =>
      let s := set_up (Gauge_Set (float64_of_int 0) (up s)) s in
      let s := set_logger
        (logger s ++ [Warn "failed to fetch and decode snapshot stats" err]) s in
      (s, (bookkeeping, Some tt))
  | inr snapshotsStatsResp =>
      let s := set_up (Gauge_Set (float64_of_int 1) (up s)) s in
      let '(sent, r) :=
        for_each (map_range snapshotsStatsResp) (fun '(repositoryName, snapshotStats) =>
          collectRepository s repositoryName snapshotStats) in
      (s, (sent ++ bookkeeping, r))
  end.

(** What the receiver reads from a metric it was sent: the descriptor, the
    label values and the value. *)
Definition Write (s : Snapshots) (m : Metric) : Desc * list string * float64 :=
  match m with
  | Const (mkConstMetric d _ v lvs) => (d, lvs, v)
  | GaugeUp => (gaugeDesc (up s), [], gaugeValue (up s))
  | CounterTotalScrapes =>
      (counterDesc (totalScrapes s), [],
       float64_of_int (Z.of_N (counterValue (totalScrapes s))))
  | CounterJsonParseFailures =>
      (counterDesc (jsonParseFailures s), [],
       float64_of_int (Z.of_N (counterValue (jsonParseFailures s))))
  end.

End model.
End snapshots.

(** ** The indices-settings collector ([collector/indices_settings.go]) *)

Module indices_settings.

(** What the collector sends on the channel of Collect: children of its four
    metric vectors, by the value of their label, sent by reference. *)
Inductive Metric : Type :=
| UpChild (lv : string)
| TotalScrapesChild (lv : string)
| JsonParseFailuresChild (lv : string)
| ReadOnlyIndicesChild (lv : string).

Section model.
Context {rt : Runtime}.

Record IndicesSettings : Type := mkIndicesSettings {
  logger : list LogEntry;
  client : World;
  url : URL;
  up : GaugeVec;
  readOnlyIndices : GaugeVec;
  totalScrapes : CounterVec;
  jsonParseFailures : CounterVec
}.

Definition set_logger (l : list LogEntry) (cs : IndicesSettings) : IndicesSettings :=
  mkIndicesSettings l (client cs) (url cs) (up cs) (readOnlyIndices cs)
    (totalScrapes cs) (jsonParseFailures cs).
Definition set_client (w : World) (cs : IndicesSettings) : IndicesSettings :=
  mkIndicesSettings (logger cs) w (url cs) (up cs) (readOnlyIndices cs)
    (totalScrapes cs) (jsonParseFailures cs).
Definition set_up (g : GaugeVec) (cs : IndicesSettings) : IndicesSettings :=
  mkIndicesSettings (logger cs) (client cs) (url cs) g (readOnlyIndices cs)
    (totalScrapes cs) (jsonParseFailures cs).
Definition set_readOnlyIndices (g : GaugeVec) (cs : IndicesSettings) : IndicesSettings :=
  mkIndicesSettings (logger cs) (client cs) (url cs) (up cs) g
    (totalScrapes cs) (jsonParseFailures cs).
Definition set_totalScrapes (c : CounterVec) (cs : IndicesSettings) : IndicesSettings :=
  mkIndicesSettings (logger cs) (client cs) (url cs) (up cs) (readOnlyIndices cs)
    c (jsonParseFailures cs).
Definition set_jsonParseFailures (c : CounterVec) (cs : IndicesSettings) : IndicesSettings :=
  mkIndicesSettings (logger cs) (client cs) (url cs) (up cs) (readOnlyIndices cs)
    (totalScrapes cs) c.

Definition NewIndicesSettings (lg : list LogEntry) (cl : World) (u : URL)
    : IndicesSettings :=
  {| logger := lg;
     client := cl;
     url := u;
     up := NewGaugeVec (BuildFQName namespace "indices_settings_stats" "up")
       "Was the last scrape of the ElasticSearch Indices Settings endpoint successful."
       ["url"];
     totalScrapes :=
       NewCounterVec (BuildFQName namespace "indices_settings_stats" "total_scrapes")
       "Current total ElasticSearch Indices Settings scrapes."
       ["url"];
     readOnlyIndices :=
       NewGaugeVec (BuildFQName namespace "indices_settings_stats" "read_only_indices")
       "Current number of read only indices within cluster"
       ["url"];
     jsonParseFailures :=
       NewCounterVec (BuildFQName namespace "indices_settings_stats" "json_parse_failures")
       "Number of errors while parsing JSON."
       ["url"] |}.

(** [Describe(ch)]: every [WithLabelValues] creates the child it names when
    it is not there yet, so the collector is returned too. *)
Definition Describe (cs : IndicesSettings) : IndicesSettings * list Desc :=
  let lv := url_String (url cs) in
  let cs := set_up (GaugeVec_With lv (up cs)) cs in
  let d1 := gvDesc (up cs) in
  let cs := set_totalScrapes (CounterVec_With lv (totalScrapes cs)) cs in
  let d2 := cvDesc (totalScrapes cs) in
  let cs := set_readOnlyIndices (GaugeVec_With lv (readOnlyIndices cs)) cs in
  let d3 := gvDesc (readOnlyIndices cs) in
  let cs := set_jsonParseFailures (CounterVec_With lv (jsonParseFailures cs)) cs in
  let d4 := cvDesc (jsonParseFailures cs) in
  (cs, [d1; d2; d3; d4]).

Definition closeBody (res : Response) (cs : IndicesSettings) : IndicesSettings :=
  match CloseErr res with
  | None => cs
  | Some e =>
      set_logger (logger cs ++ [Warn "failed to close http.Client" (CloseError e)]) cs
  end.

Definition getAndParseURL {A : Type} (decode : string -> string + A)
    (cs : IndicesSettings) (u : URL) : IndicesSettings * (error + A) :=
  let '(res, w) := http_Get u (client cs) in
  let cs := set_client w cs in
  match res with
  | inr err => (cs, inl (GetError u err))
  | inl res =>
      if negb (StatusCode res =? StatusOK)
      then (closeBody res cs, inl (StatusError (StatusCode res)))
      else match decode (Body res) with
           | inl err =>
               let cs := set_jsonParseFailures
                 (CounterVec_Inc (url_String (url cs)) (jsonParseFailures cs)) cs in
               (closeBody res cs, inl (DecodeError err))
           | inr data => (closeBody res cs, inr data)
           end
  end.

Definition settingsURL (cs : IndicesSettings) : URL :=
  set_Path (path_Join [Path (url cs); "/_all/_settings"]) (url cs).

Definition fetchAndDecodeIndicesSettings (cs : IndicesSettings)
    : IndicesSettings * (error + IndicesSettingsResponse) :=
  getAndParseURL decodeIndicesSettings cs (settingsURL cs).

(** The counting loop of [Collect]; the count of the entries of a map in
    memory stays inside the range of [int]. *)
Definition countReadOnly (asr : IndicesSettingsResponse) : Z :=
  foldl (fun c value =>
           if String.eqb (ReadOnly (Blocks (IndexInfo (Settings value)))) "true"
           then c + 1 else c)
        0 (map_range asr).*2.

(** [vec.Collect(ch)] sends every child of the vector. *)
Definition GaugeVec_Collect (child : string -> Metric) (v : GaugeVec) : list Metric :=
  map (fun kv => child (fst kv)) (map_range (gvChildren v)).

Definition CounterVec_Collect (child : string -> Metric) (v : CounterVec) : list Metric :=
  map (fun kv => child (fst kv)) (map_range (cvChildren v)).

(** [Collect(ch)]: the collector afterwards and what was sent on [ch]. *)
Definition Collect (cs : IndicesSettings) : IndicesSettings * list Metric :=
  let lv := url_String (url cs) in
  let cs := set_totalScrapes (CounterVec_Inc lv (totalScrapes cs)) cs in
  let '(cs, r) := fetchAndDecodeIndicesSettings cs in
  match r with
  | inl err =>
      let cs := set_readOnlyIndices
        (GaugeVec_Set lv (float64_of_int 0) (readOnlyIndices cs)) cs in
      let cs := set_up (GaugeVec_Set lv (float64_of_int 0) (up cs)) cs in
      let cs := set_logger
        (logger cs ++ [Warn "failed to fetch and decode cluster settings stats" err]) cs in
      (cs, [])
  | inr asr =>
      let cs := set_up (GaugeVec_Set lv (float64_of_int 1) (up cs)) cs in
      let c := countReadOnly asr in
      let cs := set_readOnlyIndices
        (GaugeVec_Set lv (float64_of_int c) (readOnlyIndices cs)) cs in
      (cs, GaugeVec_Collect UpChild (up cs)
           ++ CounterVec_Collect TotalScrapesChild (totalScrapes cs)
           ++ CounterVec_Collect JsonParseFailuresChild (jsonParseFailures cs)
           ++ GaugeVec_Collect ReadOnlyIndicesChild (readOnlyIndices cs))
  end.

(** What the receiver reads from a metric it was sent. *)
Definition Write (cs : IndicesSettings) (m : Metric) : Desc * list string * option float64 :=
  match m with
  | UpChild lv => (gvDesc (up cs), [lv], GaugeVec_value lv (up cs))
  | ReadOnlyIndicesChild lv =>
      (gvDesc (readOnlyIndices cs), [lv], GaugeVec_value lv (readOnlyIndices cs))
  | TotalScrapesChild lv =>
      (cvDesc (totalScrapes cs), [lv],
       Some (float64_of_int (Z.of_N (CounterVec_value lv (totalScrapes cs)))))
  | JsonParseFailuresChild lv =>
      (cvDesc (jsonParseFailures cs), [lv],
       Some (float64_of_int (Z.of_N (CounterVec_value lv (jsonParseFailures cs)))))
  end.

End model.
End indices_settings.

(** ** Observing a cycle of the snapshots collector

    The fetches a cycle makes, told apart from what Collect does with them:
    the discovery fetch and, after it, one detail fetch per discovered
    repository, in the order of the [range]. *)

Module snapshots_cycle.
Import snapshots.

Section observations.
Context {rt : Runtime}.

(** The first statement of [Collect]. *)
Definition started (s : Snapshots) : Snapshots :=
  set_totalScrapes (Counter_Inc (totalScrapes s)) s.

(** The discovery fetch of the cycle that starts on [s]. *)
Definition discovery (s : Snapshots) : Snapshots * (error + SnapshotRepositoriesResponse) :=
  getAndParseURL decodeRepositories (started s) (repositoriesURL (started s)).

(** The detail fetches made one after the other for [repositories], each
    with the error or the payload it came back with. *)
Fixpoint detailResults (s : Snapshots) (repositories : list string)
    : list (string * (error + SnapshotStatsResponse)) :=
  match repositories with
  | [] => []
  | repository :: rest =>
      let '(s', r) :=
        getAndParseURL decodeSnapshotStats s (repositoryURL s repository) in
      (repository, r) :: detailResults s' rest
  end.

(** The collector after those detail fetches. *)
Fixpoint afterDetails (s : Snapshots) (repositories : list string) : Snapshots :=
  match repositories with
  | [] => s
  | repository :: rest =>
      afterDetails
        (getAndParseURL decodeSnapshotStats s (repositoryURL s repository)).1 rest
  end.

(** The detail fetches of the cycle that starts on [s]: none when discovery
    failed. *)
Definition details (s : Snapshots) : list (string * (error + SnapshotStatsResponse)) :=
  match discovery s with
  | (s1, inr srr) => detailResults s1 (map_range srr).*1
  | (_, inl _) => []
  end.

(** The payloads of the detail fetches that succeeded. *)
Definition fetched (results : list (string * (error + SnapshotStatsResponse)))
    : list (string * SnapshotStatsResponse) :=
  omap (fun kr => match kr.2 with inr p => Some (kr.1, p) | inl _ => None end) results.

(** The errors of the detail fetches that failed. *)
Definition failed (results : list (string * (error + SnapshotStatsResponse)))
    : list (string * error) :=
  omap (fun kr => match kr.2 with inl e => Some (kr.1, e) | inr _ => None end) results.

(** The mapping [fetchAndDecodeSnapshotsStats] builds from them. *)
Definition stored (results : list (string * (error + SnapshotStatsResponse)))
    : gmap string SnapshotStatsResponse :=
  foldl (fun m kp => <[kp.1 := kp.2]> m) ∅ (fetched results).

(** What one turn of the loop of Collect sends for an entry of the
    mapping. *)
Definition samplesOf (s : Snapshots) (kp : string * SnapshotStatsResponse)
    : list Metric :=
  (collectRepository s kp.1 kp.2).1.

Definition hasRecords (p : SnapshotStatsResponse) : bool :=
  negb (Nat.eqb (length (ssr_Snapshots p)) 0).

(** The number of JSON decode failures among the fetches of the cycle. *)
Definition decodeFailures (s : Snapshots) : nat :=
  ((if parseFailed (discovery s).2 then 1 else 0)
   + length (filter (fun ke => isDecodeError ke.2 = true) (failed (details s))))%nat.

(** The constant metrics among what was sent, and the others. *)
Definition dataSamples (sent : list Metric) : list ConstMetric :=
  omap (fun m => match m with Const c => Some c | _ => None end) sent.

(** The entity a data sample is about: the value of its first label,
    "repository" in both tables. *)
Definition repositoryOf (c : ConstMetric) : option string :=
  head (cm_labelValues c).

(** A descriptor of the per-repository table applied to a payload. *)
Definition appliedToPayload (repositoryName : string) (p : SnapshotStatsResponse)
    (metric : repositoryMetric) (m : Metric) : Prop :=
  exists v, rm_Value metric p = Some v
    /\ m = Const (mkConstMetric (rm_Desc metric) (rm_Type metric) v [repositoryName]).

(** A descriptor of the per-latest-record table applied to a record. *)
Definition appliedToRecord (repositoryName : string) (r : SnapshotStatDataResponse)
    (metric : snapshotMetric) (m : Metric) : Prop :=
  exists v, sm_Value metric r = Some v
    /\ m = Const (mkConstMetric (sm_Desc metric) (sm_Type metric) v
                    [repositoryName; State r; Version r]).

(** The tables of a collector are the ones [NewSnapshots] built for its
    URL. *)
Definition constructed (s : Snapshots) : Prop :=
  snapshotMetrics s = newSnapshotMetrics (constLabelsFromURL (url s))
  /\ repositoryMetrics s = newRepositoryMetrics (constLabelsFromURL (url s)).

(** [n] calls of Collect in a row. *)
Fixpoint repeatCollect (n : nat) (s : Snapshots) : Snapshots :=
  match n with
  | O => s
  | S n' => repeatCollect n' (Collect s).1
  end.

(** Is the line the warning of a body that did not close? *)
Definition isCloseWarning (l : LogEntry) : bool :=
  match l with Warn _ (CloseError _) => true | _ => false end.

(** The reading of the sentence "the failure of an entity is logged": every
    failed detail fetch of the cycle has a line with its error in the log
    after Collect. *)
Definition failuresLogged (s : Snapshots) : Prop :=
  forall repository err,
    (repository, err) ∈ failed (details s) ->
    exists msg, Warn msg err ∈ logger (Collect s).1.

End observations.
End snapshots_cycle.

(** ** Observing a cycle of the indices-settings collector *)

Module indices_settings_cycle.
Import indices_settings.

Section observations.
Context {rt : Runtime}.

Definition label (cs : IndicesSettings) : string := url_String (url cs).

(** The first statement of [Collect]. *)
Definition started (cs : IndicesSettings) : IndicesSettings :=
  set_totalScrapes (CounterVec_Inc (label cs) (totalScrapes cs)) cs.

(** The settings fetch of the cycle that starts on [cs]. *)
Definition discovery (cs : IndicesSettings)
    : IndicesSettings * (error + IndicesSettingsResponse) :=
  getAndParseURL decodeIndicesSettings (started cs) (settingsURL (started cs)).

Definition decodeFailures (cs : IndicesSettings) : nat :=
  if parseFailed (discovery cs).2 then 1 else 0.

Fixpoint repeatCollect (n : nat) (cs : IndicesSettings) : IndicesSettings :=
  match n with
  | O => cs
  | S n' => repeatCollect n' (Collect cs).1
  end.

End observations.
End indices_settings_cycle.

(** ** A cluster to run the collectors against

    The world is the condition of the cluster, which the requests leave as
    it is:
    - 0: discovery lists the repositories a, b, c and d; the detail of a
      answers 500, the one of b has two snapshots, the one of c has none and
      the one of d is not JSON; the settings list two indices, one of them
      read-only;
    - 1: every request answers 500;
    - 2: every request answers 200 with a body that is not JSON;
    - 3: discovery lists the repositories, every detail answers 500;
    - any other: the connection is refused. *)

Module example.

Fixpoint joinPath (elem : list string) : string :=
  match elem with
  | [] => ""
  | x :: rest =>
      let r := joinPath rest in
      if String.eqb x "" then r
      else if String.eqb r "" then x
      else if String.prefix "/" r then x +:+ r
      else x +:+ "/" +:+ r
  end.

Definition ok (body : string) : Response + string :=
  inl {| StatusCode := 200; Body := body; CloseErr := None |}.

Definition status (code : Z) : Response + string :=
  inl {| StatusCode := code; Body := ""; CloseErr := None |}.

Definition healthy (p : string) : Response + string :=
  if String.eqb p "/_snapshot" then ok "repositories"
  else if String.eqb p "/_snapshot/a/_all" then status 500
  else if String.eqb p "/_snapshot/b/_all" then ok "two snapshots"
  else if String.eqb p "/_snapshot/c/_all" then ok "no snapshots"
  else if String.eqb p "/_snapshot/d/_all" then ok "<html>"
  else if String.eqb p "/_all/_settings" then ok "settings"
  else status 404.

Definition get (u : URL) (w : nat) : (Response + string) * nat :=
  (match w with
   | 0%nat => healthy (Path u)
   | 1%nat => status 500
   | 2%nat => ok "<html>"
   | 3%nat => if String.eqb (Path u) "/_snapshot" then ok "repositories" else status 500
   | _ => inr "connection refused"
   end, w).

Definition repositories : gmap string string :=
  <["a" := "fs"]> (<["b" := "fs"]> (<["c" := "s3"]> (<["d" := "fs"]> ∅))).

Definition firstSnapshot : SnapshotStatDataResponse :=
  {| Version := "6.8.0"; Indices := ["logs"]; State := "SUCCESS";
     StartTimeInMillis := 100999; EndTimeInMillis := 101500;
     Failures := []; Shards := {| Total := 5; Failed := 0; Successful := 5 |} |}.

Definition secondSnapshot : SnapshotStatDataResponse :=
  {| Version := "6.8.0"; Indices := ["logs"; "metrics"]; State := "PARTIAL";
     StartTimeInMillis := 200999; EndTimeInMillis := 201001;
     Failures := ["shard 3"]; Shards := {| Total := 10; Failed := 1; Successful := 9 |} |}.

Definition settings : gmap string Index :=
  <["logs" := mkIndex (mkSettings (mkIndexInfo (mkBlocks "true")))]>
    (<["metrics" := mkIndex (mkSettings (mkIndexInfo (mkBlocks "")))]> ∅).

Definition decodeRepos (body : string) : string + gmap string string :=
  if String.eqb body "repositories" then inr repositories
  else inl "invalid character".

Definition decodeStats (body : string) : string + SnapshotStatsResponse :=
  if String.eqb body "two snapshots" then inr (mkStats [firstSnapshot; secondSnapshot])
  else if String.eqb body "no snapshots" then inr (mkStats [])
  else inl "invalid character".

Definition decodeSettings (body : string) : string + gmap string Index :=
  if String.eqb body "settings" then inr settings
  else inl "invalid character".

Definition renderURL (u : URL) : string :=
  Scheme u +:+ "://" +:+ Hostname u +:+ ":" +:+ Port u +:+ Path u.

Definition range (A : Type) (m : gmap string A) : list (string * A) := map_to_list m.

Definition range_perm (A : Type) (m : gmap string A) : range A m ≡ₚ map_to_list m :=
  reflexivity (map_to_list m).

#[local] Instance cluster : Runtime := {|
  World := nat;
  http_Get := get;
  path_Join := joinPath;
  url_String := renderURL;
  namespace := "elasticsearch";
  constLabelsFromURL := fun _ => ∅;
  decodeRepositories := decodeRepos;
  decodeSnapshotStats := decodeStats;
  decodeIndicesSettings := decodeSettings;
  map_range := range;
  map_range_perm := range_perm
|}.

Definition base : URL :=
  {| Scheme := "http"; Hostname := "localhost"; Port := "9200"; Path := "" |}.

(** A new snapshots collector in front of the cluster in condition [w]. *)
Definition snapshotsOn (w : nat) : snapshots.Snapshots :=
  snapshots.NewSnapshots [] w base.

(** A new indices-settings collector in front of the cluster in condition
    [w]. *)
Definition settingsOn (w : nat) : indices_settings.IndicesSettings :=
  indices_settings.NewIndicesSettings [] w base.

(** The indices-settings collector after one cycle on the cluster in
    condition 0, the cluster then going to condition 1. *)
Definition settingsThenDown : indices_settings.IndicesSettings :=
  indices_settings.set_client 1%nat (indices_settings.Collect (settingsOn 0)).1.

End example.

(** ** Watching the requests

    A runtime that does what [rt] does and keeps, beside the world of [rt],
    the list of the URLs requested so far. *)

Module recording.

Section recorder.
Context (rt : Runtime).

Definition get (u : URL) (w : World * list URL)
    : (Response + string) * (World * list URL) :=
  let '(r, w') := http_Get u w.1 in (r, (w', w.2 ++ [u])).

Definition recorder : Runtime := {|
  World := World * list URL;
  http_Get := get;
  path_Join := path_Join;
  url_String := url_String;
  namespace := namespace;
  constLabelsFromURL := constLabelsFromURL;
  decodeRepositories := decodeRepositories;
  decodeSnapshotStats := decodeSnapshotStats;
  decodeIndicesSettings := decodeIndicesSettings;
  map_range := @map_range rt;
  map_range_perm := @map_range_perm rt
|}.

End recorder.

(** The URLs requested so far, as a collector in front of the recorder
    holds them. *)
Definition requested {rt : Runtime} (w : World * list URL) : list URL := w.2.

End recording.

(** ** More to observe in a fetch and in a cycle *)

(** The warning the deferred function of [getAndParseURL] logs for what
    [http.Client.Get] handed back: one line when there is a response whose
    body does not close. *)
Definition closeWarnings (r : Response + string) : list LogEntry :=
  match r with
  | inl res =>
      match CloseErr res with
      | Some e => [Warn "failed to close http.Client" (CloseError e)]
      | None => []
      end
  | inr _ => []
  end.

(** An index counts as read-only when the setting is the string "true". *)
Definition isReadOnly (value : Index) : Prop :=
  ReadOnly (Blocks (IndexInfo (Settings value))) = "true".

#[global] Instance isReadOnly_dec (value : Index) : Decision (isReadOnly value) :=
  decide (ReadOnly (Blocks (IndexInfo (Settings value))) = "true").

(** What a data sample shows to a reader: the help of its descriptor, its
    label values and its value. *)
Definition shown (c : ConstMetric) : string * list string * float64 :=
  (help (cm_desc c), cm_labelValues c, cm_value c).

(** A cluster without repositories: discovery answers an empty mapping, the
    settings an empty mapping, and nothing else is there. *)
Module empty_cluster.

Definition get (u : URL) (w : unit) : (Response + string) * unit :=
  (if String.eqb (Path u) "/_snapshot" then example.ok "{}"
   else if String.eqb (Path u) "/_all/_settings" then example.ok "{}"
   else example.status 404, w).

Definition decodeEmpty {A : Type} (body : string) : string + gmap string A :=
  if String.eqb body "{}" then inr ∅ else inl "invalid character".

#[local] Instance cluster : Runtime := {|
  World := unit;
  http_Get := get;
  path_Join := example.joinPath;
  url_String := example.renderURL;
  namespace := "elasticsearch";
  constLabelsFromURL := fun _ => ∅;
  decodeRepositories := decodeEmpty;
  decodeSnapshotStats := fun _ => inl "invalid character";
  decodeIndicesSettings := decodeEmpty;
  map_range := example.range;
  map_range_perm := example.range_perm
|}.

Definition snapshotsCollector : snapshots.Snapshots :=
  snapshots.NewSnapshots [] tt example.base.

Definition settingsCollector : indices_settings.IndicesSettings :=
  indices_settings.NewIndicesSettings [] tt example.base.

End empty_cluster.

(** A collector in front of the example cluster whose per-repository table
    was given a descriptor without the label values it needs: building the
    metric panics. *)
Module broken.

Definition table : list snapshots.repositoryMetric :=
  [ {| snapshots.rm_Type := GaugeValue;
       snapshots.rm_Desc := NewDesc "number_of_snapshots" "Number of snapshots"
                              ["repository"] ∅;
       snapshots.rm_Value := fun p => Some (float64_of_int (len (ssr_Snapshots p)));
       snapshots.rm_Labels := fun _ => [] |} ].

Definition collector : snapshots.Snapshots :=
  let s := example.snapshotsOn 0 in
  snapshots.mkSnapshots (snapshots.logger s) (snapshots.client s) (snapshots.url s)
    (snapshots.up s) (snapshots.totalScrapes s) (snapshots.jsonParseFailures s)
    (snapshots.snapshotMetrics s) table.

End broken.

(** Collectors in front of the recorder of the example cluster. *)
Module recorded.

#[local] Instance cluster : Runtime := recording.recorder example.cluster.

Definition snapshotsOn (w : nat) : snapshots.Snapshots :=
  snapshots.NewSnapshots [] (w, []) example.base.

Definition settingsOn (w : nat) : indices_settings.IndicesSettings :=
  indices_settings.NewIndicesSettings [] (w, []) example.base.

End recorded.

(** ** Decode failures, read off the answers

    What the cluster answered, without a look at what a fetch made of it. *)

(** The answer is a response with status 200 whose body the decoder
    refuses: a JSON decode failure. *)
Definition refused {A : Type} (decode : string -> string + A)
    (r : Response + string) : bool :=
  match r with
  | inl res =>
      (StatusCode res =? StatusOK)
      && match decode (Body res) with inl _ => true | inr _ => false end
  | inr _ => false
  end.

(** The value in an answer with status 200 whose body the decoder takes. *)
Definition decoded {A : Type} (decode : string -> string + A)
    (r : Response + string) : option A :=
  match r with
  | inl res =>
      if StatusCode res =? StatusOK
      then match decode (Body res) with inl _ => None | inr data => Some data end
      else None
  | inr _ => None
  end.

Module answers.

Section counting.
Context {rt : Runtime}.

(** The decode failures among the answers to the detail requests for
    [repositories], asked one after the other from the world [w]. *)
Fixpoint detailRefusals (s : snapshots.Snapshots) (w : World) (repositories : list string)
    : nat :=
  match repositories with
  | [] => 0
  | repository :: rest =>
      let '(r, w') := http_Get (snapshots.repositoryURL s repository) w in
      ((if refused decodeSnapshotStats r then 1 else 0) + detailRefusals s w' rest)%nat
  end.

(** The decode failures among the answers of a cycle of the snapshots
    collector: the one to the discovery request and, when it holds a
    mapping, those to the detail requests for its repositories. *)
Definition snapshotsRefusals (s : snapshots.Snapshots) : nat :=
  let '(r, w) := http_Get (snapshots.repositoriesURL s) (snapshots.client s) in
  ((if refused decodeRepositories r then 1 else 0)
   + match decoded decodeRepositories r with
     | Some srr => detailRefusals s w (map_range srr).*1
     | None => 0
     end)%nat.

(** The decode failures among the answers of a cycle of the
    indices-settings collector: its one request. *)
Definition settingsRefusals (cs : indices_settings.IndicesSettings) : nat :=
  if refused decodeIndicesSettings
       (http_Get (indices_settings.settingsURL cs) (indices_settings.client cs)).1
  then 1 else 0.

End counting.
End answers.

(** Short names for the two collectors and their cycles. *)
Module sn := snapshots.
Module snc := snapshots_cycle.
Module ix := indices_settings.
Module ixc := indices_settings_cycle.

(** * Properties *)

(** ** Numbers *)

Lemma float64_one_not_zero : float64_of_int 1 <> float64_of_int 0.
Proof. vm_compute. discriminate. Qed.

Lemma int64_quo_1000 (x : Z) : is_int64 x -> int64_quo x 1000 = Z.quot x 1000.
Proof.
  unfold is_int64, int64_quo, int64_wrap. intros Hx.
  assert (Hq : - 2 ^ 63 <= Z.quot x 1000 < 2 ^ 63).
  { destruct (Z.le_gt_cases 0 x) as [Hp | Hn].
    - pose proof (Z.quot_pos x 1000 Hp ltac:(lia)).
      pose proof (Z.quot_le_upper_bound x 1000 (2 ^ 63 - 1) ltac:(lia) ltac:(lia)). lia.
    - assert (Hopp : Z.quot x 1000 = - Z.quot (- x) 1000).
      { rewrite Z.quot_opp_l by lia. lia. }
      pose proof (Z.quot_pos (- x) 1000 ltac:(lia) ltac:(lia)).
      pose proof (Z.quot_le_upper_bound (- x) 1000 (2 ^ 63) ltac:(lia) ltac:(lia)). lia. }
  rewrite Z.mod_small by lia. lia.
Qed.

Lemma quot_1000_wholeSeconds (t : Z) : wholeSeconds t (t ÷ 1000).
Proof.
  unfold wholeSeconds. pose proof (Z.quot_rem' t 1000) as Ht. split; intros H.
  - pose proof (Z.rem_bound_pos_pos t 1000 ltac:(lia) H). lia.
  - pose proof (Z.rem_bound_pos_neg t 1000 ltac:(lia) H). lia.
Qed.

Lemma index_last {A : Type} (l : list A) :
  l <> [] -> index l (len l - 1) = last l.
Proof.
  intros Hl. unfold index, len.
  destruct (Z.ltb_spec (Z.of_nat (length l) - 1) 0) as [Hlt | Hge].
  - destruct l; [done | simpl in Hlt; lia].
  - rewrite last_lookup. f_equal. lia.
Qed.

Lemma index_head {A : Type} (l : list A) : index l 0 = head l.
Proof. unfold index. simpl. by destruct l. Qed.

(** The conversion of an integer never yields NaN: the shifts and the
    rounding keep a mantissa that is not negative. *)
Lemma shr_1_nonneg (mrs : shr_record) : 0 <= shr_m mrs -> 0 <= shr_m (shr_1 mrs).
Proof.
  destruct mrs as [m r s]. simpl. destruct m as [| p | p]; simpl; try lia.
  - destruct p; simpl; lia.
Qed.

Lemma iter_pos_invariant {A : Type} (P : A -> Prop) (f : A -> A) :
  (forall x, P x -> P (f x)) -> forall p x, P x -> P (SpecFloat.iter_pos f p x).
Proof.
  intros Hf. induction p as [p IH | p IH |]; intros x Hx; simpl; auto.
Qed.

Lemma shr_nonneg (mrs : shr_record) (e n : Z) :
  0 <= shr_m mrs -> 0 <= shr_m (shr mrs e n).1.
Proof.
  intros Hm. unfold shr. destruct n; simpl; try assumption.
  apply (iter_pos_invariant (fun r => 0 <= shr_m r)); auto using shr_1_nonneg.
Qed.

Lemma shr_fexp_nonneg (prec emax m e : Z) (l : location) :
  0 <= m -> 0 <= shr_m (shr_fexp prec emax m e l).1.
Proof.
  intros Hm. unfold shr_fexp. apply shr_nonneg.
  destruct l as [| []]; simpl; assumption.
Qed.

Lemma round_nearest_even_nonneg (m : Z) (l : location) :
  0 <= m -> 0 <= round_nearest_even m l.
Proof.
  intros Hm. destruct l as [| []]; simpl; try lia. destruct (Z.even m); lia.
Qed.

Lemma binary_round_aux_not_nan (prec emax : Z) (sx : bool) (mx ex : Z) (lx : location) :
  0 <= mx -> binary_round_aux prec emax sx mx ex lx <> S754_nan.
Proof.
  intros Hm. unfold binary_round_aux.
  pose proof (shr_fexp_nonneg prec emax mx ex lx Hm) as H1.
  destruct (shr_fexp prec emax mx ex lx) as [mrs' e']. simpl in H1.
  pose proof (shr_fexp_nonneg prec emax _ e' loc_Exact
                (round_nearest_even_nonneg _ (loc_of_shr_record mrs') H1)) as H2.
  destruct (shr_fexp prec emax _ e' loc_Exact) as [mrs'' e'']. simpl in H2.
  destruct (shr_m mrs'') as [| m | m]; try discriminate; try lia.
  destruct (e'' <=? emax - prec); discriminate.
Qed.

Lemma float64_of_int_not_nan (z : Z) : float64_of_int z <> S754_nan.
Proof.
  unfold float64_of_int, binary_normalize, binary_round.
  destruct z as [| p | p]; try discriminate.
  - destruct (shl_align _ _ _) as [mz ez]. by apply binary_round_aux_not_nan.
  - destruct (shl_align _ _ _) as [mz ez]. by apply binary_round_aux_not_nan.
Qed.

(** ** The snapshots collector *)

Module snapshots_facts.
Import snapshots snapshots_cycle.

Section facts.
Context {rt : Runtime}.

Ltac fetch_cases decode s u :=
  unfold getAndParseURL;
  destruct (http_Get u (client s)) as [[res | cause] w]; simpl;
  [ destruct (StatusCode res =? StatusOK) eqn:Hcode; simpl;
    [ destruct (decode (Body res)) as [derr | data] eqn:Hdec; simpl | ];
    unfold closeBody; destruct (CloseErr res); simpl
  | ].

(** A fetch touches the client, the log and the parse-failure counter, and
    nothing else of the collector. *)
Lemma getAndParseURL_frame {A : Type} (decode : string -> string + A) s u :
  let s' := (getAndParseURL decode s u).1 in
  url s' = url s /\ up s' = up s /\ totalScrapes s' = totalScrapes s
  /\ snapshotMetrics s' = snapshotMetrics s
  /\ repositoryMetrics s' = repositoryMetrics s
  /\ counterDesc (jsonParseFailures s') = counterDesc (jsonParseFailures s).
Proof. fetch_cases decode s u; repeat split; reflexivity. Qed.

(** The counter goes up by one exactly when the fetch fails in the
    decoder. *)
Lemma getAndParseURL_counter {A : Type} (decode : string -> string + A) s u :
  counterValue (jsonParseFailures (getAndParseURL decode s u).1)
  = (counterValue (jsonParseFailures s)
     + (if parseFailed (getAndParseURL decode s u).2 then 1 else 0))%N.
Proof. fetch_cases decode s u; lia. Qed.

(** The only lines a fetch logs are about a body that did not close. *)
Lemma getAndParseURL_logger {A : Type} (decode : string -> string + A) s u :
  exists extra,
    logger (getAndParseURL decode s u).1 = logger s ++ extra
    /\ Forall (fun l => isCloseWarning l = true) extra.
Proof.
  fetch_cases decode s u;
    first [ by (eexists; split; [reflexivity | repeat constructor])
          | by (exists []; split; [by rewrite app_nil_r | constructor]) ].
Qed.

(** A status other than 200 is an error with that status, whatever the
    body, and the decoder is not run. *)
Lemma getAndParseURL_status {A : Type} (decode : string -> string + A) s u res w :
  http_Get u (client s) = (inl res, w) ->
  StatusCode res <> StatusOK ->
  (getAndParseURL decode s u).2 = inl (StatusError (StatusCode res))
  /\ jsonParseFailures (getAndParseURL decode s u).1 = jsonParseFailures s.
Proof.
  intros Hget Hne. unfold getAndParseURL. rewrite Hget. simpl.
  destruct (Z.eqb_spec (StatusCode res) StatusOK) as [Heq | _]; [done |]. simpl.
  unfold closeBody. by destruct (CloseErr res).
Qed.

(** A fetch fails in the decoder exactly on a 200 whose body the decoder
    refuses. *)
Lemma getAndParseURL_parseFailed {A : Type} (decode : string -> string + A) s u :
  parseFailed (getAndParseURL decode s u).2
  = match (http_Get u (client s)).1 with
    | inl res =>
        (StatusCode res =? StatusOK)
        && match decode (Body res) with inl _ => true | inr _ => false end
    | inr _ => false
    end.
Proof. fetch_cases decode s u; reflexivity. Qed.

(** *** The loop of detail fetches *)

Lemma detailResults_keys s repositories :
  (detailResults s repositories).*1 = repositories.
Proof.
  revert s. induction repositories as [| r rest IH]; intros s; simpl; [done |].
  destruct (getAndParseURL _ _ _) as [s' res]. simpl. by rewrite IH.
Qed.

Lemma afterDetails_frame s repositories :
  let s' := afterDetails s repositories in
  url s' = url s /\ up s' = up s /\ totalScrapes s' = totalScrapes s
  /\ snapshotMetrics s' = snapshotMetrics s
  /\ repositoryMetrics s' = repositoryMetrics s
  /\ counterDesc (jsonParseFailures s') = counterDesc (jsonParseFailures s).
Proof.
  revert s. induction repositories as [| r rest IH]; intros s; simpl; [done |].
  destruct (IH (getAndParseURL decodeSnapshotStats s (repositoryURL s r)).1)
    as (-> & -> & -> & -> & -> & ->).
  apply getAndParseURL_frame.
Qed.

Lemma afterDetails_counter s repositories :
  counterValue (jsonParseFailures (afterDetails s repositories))
  = (counterValue (jsonParseFailures s)
     + N.of_nat (length (filter (fun ke => isDecodeError ke.2 = true)
                           (failed (detailResults s repositories)))))%N.
Proof.
  revert s. induction repositories as [| r rest IH]; intros s; simpl; [lia |].
  pose proof (getAndParseURL_counter decodeSnapshotStats s (repositoryURL s r)) as Hc.
  destruct (getAndParseURL decodeSnapshotStats s (repositoryURL s r)) as [s' res].
  simpl in *. rewrite IH, Hc. unfold failed. simpl.
  destruct res as [e | p]; simpl; [| lia].
  destruct (isDecodeError e) eqn:He.
  - rewrite filter_cons_True by done. simpl. lia.
  - rewrite filter_cons_False by (simpl; congruence). lia.
Qed.

Lemma afterDetails_logger s repositories :
  exists extra,
    logger (afterDetails s repositories) = logger s ++ extra
    /\ Forall (fun l => isCloseWarning l = true) extra.
Proof.
  revert s. induction repositories as [| r rest IH]; intros s; simpl.
  - exists []. by rewrite app_nil_r.
  - destruct (IH (getAndParseURL decodeSnapshotStats s (repositoryURL s r)).1)
      as (extra2 & -> & H2).
    destruct (getAndParseURL_logger decodeSnapshotStats s (repositoryURL s r))
      as (extra1 & -> & H1).
    exists (extra1 ++ extra2). split; [by rewrite app_assoc | by apply Forall_app].
Qed.

(** The loop of [fetchAndDecodeSnapshotsStats] makes the detail fetches one
    after the other and stores the payloads of those that succeeded. *)
Lemma foldl_fetchRepository s (mssr : gmap string SnapshotStatsResponse) repositories :
  foldl fetchRepository (s, mssr) repositories
  = (afterDetails s repositories,
     foldl (fun m kp => <[kp.1 := kp.2]> m) mssr
       (fetched (detailResults s repositories))).
Proof.
  revert s mssr. induction repositories as [| r rest IH]; intros s mssr; simpl; [done |].
  destruct (getAndParseURL decodeSnapshotStats s (repositoryURL s r)) as [s' res].
  destruct res as [e | p]; simpl; by rewrite IH.
Qed.

Lemma foldl_insert_list_to_map {V : Type} (m : gmap string V) (l : list (string * V)) :
  foldl (fun m kp => <[kp.1 := kp.2]> m) m l = list_to_map (reverse l) ∪ m.
Proof.
  revert m. induction l as [| [k v] l IH]; intros m; simpl.
  - by rewrite (left_id_L ∅ (∪)).
  - rewrite IH, reverse_cons, list_to_map_app. simpl.
    rewrite <- (assoc_L (∪)). f_equal.
    rewrite insert_empty, <- insert_union_singleton_l. done.
Qed.

Lemma fetched_keys_sublist (results : list (string * (error + SnapshotStatsResponse))) :
  (fetched results).*1 `sublist_of` results.*1.
Proof.
  induction results as [| [k [e | p]] rest IH]; unfold fetched in *; simpl.
  - constructor.
  - by apply sublist_cons.
  - by apply sublist_skip.
Qed.

(** With distinct repositories, a [range] over the stored payloads visits
    the payloads of the fetches that succeeded, each once. *)
Lemma range_stored (results : list (string * (error + SnapshotStatsResponse))) :
  NoDup results.*1 ->
  map_range (foldl (fun m kp => <[kp.1 := kp.2]> m) (∅ : gmap string _) (fetched results))
  ≡ₚ fetched results.
Proof.
  intros Hnd. rewrite map_range_perm, foldl_insert_list_to_map.
  rewrite (right_id_L ∅ (∪)), map_to_list_to_map.
  - apply reverse_Permutation.
  - rewrite fmap_reverse, reverse_Permutation.
    eapply sublist_NoDup; [done | apply fetched_keys_sublist].
Qed.

Lemma range_keys_NoDup {V : Type} (m : gmap string V) : NoDup (map_range m).*1.
Proof. rewrite map_range_perm. apply NoDup_fst_map_to_list. Qed.

Lemma range_keys_dom {V : Type} (m : gmap string V) k :
  k ∈ (map_range m).*1 <-> k ∈ dom m.
Proof.
  rewrite map_range_perm, elem_of_dom. split.
  - intros ([k' v] & -> & Hin)%list_elem_of_fmap. simpl.
    apply elem_of_map_to_list in Hin. eauto.
  - intros [v Hv]. apply list_elem_of_fmap. exists (k, v). split; [done |].
    by apply elem_of_map_to_list.
Qed.

(** *** The two tables *)

Lemma newRepositoryMetrics_wf cl :
  Forall (fun metric =>
            (forall p, is_Some (rm_Value metric p))
            /\ (forall name, rm_Labels metric name = [name])
            /\ length (variableLabels (rm_Desc metric)) = 1%nat)
         (newRepositoryMetrics cl).
Proof.
  repeat constructor; simpl; eauto.
  intros [snaps]. simpl. destruct snaps as [| first rest]; simpl; eauto.
Qed.

Lemma newSnapshotMetrics_wf cl :
  Forall (fun metric =>
            (forall r, is_Some (sm_Value metric r))
            /\ (forall name r, sm_Labels metric name r = [name; State r; Version r])
            /\ length (variableLabels (sm_Desc metric)) = 3%nat)
         (newSnapshotMetrics cl).
Proof. repeat constructor; simpl; eauto. Qed.

(** *** Sending *)

Lemma for_each_app {M A : Type} (l1 l2 : list A) (body : A -> Emit M unit) :
  for_each (l1 ++ l2) body = (_ <~ for_each l1 body ;; for_each l2 body).
Proof.
  induction l1 as [| x l1 IH]; simpl.
  - by destruct (for_each l2 body).
  - rewrite IH. destruct (body x) as [sent [[] |]]; simpl; [| done].
    destruct (for_each l1 body) as [sent1 [[] |]]; simpl; [| done].
    destruct (for_each l2 body) as [sent2 r2]. by rewrite app_assoc.
Qed.

(** A loop whose turns each send one metric and return sends, in order, one
    metric per element. *)
Lemma for_each_single {M A : Type} (R : A -> M -> Prop) (l : list A)
    (body : A -> Emit M unit) :
  Forall (fun x => exists m, body x = ([m], Some tt) /\ R x m) l ->
  exists sent, for_each l body = (sent, Some tt) /\ Forall2 R l sent.
Proof.
  induction 1 as [| x l (m & Hx & HR) _ (sent & IH & HF)]; simpl.
  - exists []. by split.
  - exists (m :: sent). rewrite Hx, IH. simpl. split; [done | by constructor].
Qed.

(** A loop whose turns all return sends what the turns send, one after the
    other. *)
Lemma for_each_returns {M A : Type} (l : list A) (body : A -> Emit M unit) :
  Forall (fun x => (body x).2 = Some tt) l ->
  for_each l body = (concat ((fun x => (body x).1) <$> l), Some tt).
Proof.
  induction 1 as [| x l Hx _ IH]; simpl; [done |].
  destruct (body x) as [sent r]. simpl in *. subst r. by rewrite IH.
Qed.

(** *** One turn of the loop of Collect *)

Lemma collectRepository_spec s name p :
  constructed s ->
  exists sent1 sent2,
    collectRepository s name p = (sent1 ++ sent2, Some tt)
    /\ Forall2 (appliedToPayload name p) (repositoryMetrics s) sent1
    /\ match last (ssr_Snapshots p) with
       | None => sent2 = []
       | Some r => Forall2 (appliedToRecord name r) (snapshotMetrics s) sent2
       end.
Proof.
  intros [Hs Hr]. unfold collectRepository.
  edestruct (for_each_single (appliedToPayload name p) (repositoryMetrics s))
    as (sent1 & -> & F1).
  { rewrite Hr. eapply Forall_impl; [apply newRepositoryMetrics_wf |].
    intros metric (Hv & Hl & Ha). destruct (Hv p) as [v Hvp].
    exists (Const (mkConstMetric (rm_Desc metric) (rm_Type metric) v [name])).
    split; [| by exists v].
    rewrite Hvp. unfold MustNewConstMetric. rewrite Hl, Ha. reflexivity. }
  exists sent1. simpl.
  destruct (ssr_Snapshots p) as [| first rest] eqn:Hsn.
  - exists []. change (len (@nil SnapshotStatDataResponse) =? 0) with true.
    simpl. by rewrite app_nil_r.
  - destruct (Z.eqb_spec (len (first :: rest)) 0) as [H0 | _].
    { unfold len in H0. simpl in H0. lia. }
    rewrite index_last by done.
    destruct (last (first :: rest)) as [r |] eqn:Hlast.
    2: { by apply last_None in Hlast. }
    edestruct (for_each_single (appliedToRecord name r) (snapshotMetrics s))
      as (sent2 & E2 & F2).
    2: { exists sent2. simpl. by rewrite E2. }
    rewrite Hs. eapply Forall_impl; [apply newSnapshotMetrics_wf |].
    intros metric (Hv & Hl & Ha). destruct (Hv r) as [v Hvr].
    exists (Const (mkConstMetric (sm_Desc metric) (sm_Type metric) v
                     [name; State r; Version r])).
    split; [| by exists v].
    rewrite Hvr. unfold MustNewConstMetric. rewrite Hl, Ha. reflexivity.
Qed.

Lemma collectRepository_ext s s' name p :
  repositoryMetrics s = repositoryMetrics s' ->
  snapshotMetrics s = snapshotMetrics s' ->
  collectRepository s name p = collectRepository s' name p.
Proof. intros H1 H2. unfold collectRepository. by rewrite H1, H2. Qed.

Lemma collectRepository_length s name p :
  constructed s ->
  length (collectRepository s name p).1
  = (length (repositoryMetrics s)
     + if hasRecords p then length (snapshotMetrics s) else 0)%nat.
Proof.
  intros Hc. destruct (collectRepository_spec s name p Hc) as (sent1 & sent2 & -> & F1 & F2).
  simpl. rewrite length_app, <- (Forall2_length _ _ _ F1). f_equal.
  unfold hasRecords. destruct (ssr_Snapshots p) as [| first rest] eqn:Hsn.
  - simpl in *. by subst sent2.
  - destruct (last (first :: rest)) as [r |] eqn:Hlast.
    + simpl. by rewrite <- (Forall2_length _ _ _ F2).
    + by apply last_None in Hlast.
Qed.

(** *** A cycle *)

Lemma details_ok s s1 srr :
  discovery s = (s1, inr srr) -> details s = detailResults s1 (map_range srr).*1.
Proof. intros H. unfold details. by rewrite H. Qed.

Lemma details_failed s s1 err :
  discovery s = (s1, inl err) -> details s = [].
Proof. intros H. unfold details. by rewrite H. Qed.

Lemma fetchAndDecodeSnapshotsStats_started s :
  fetchAndDecodeSnapshotsStats (started s)
  = match discovery s with
    | (s1, inl err) => (s1, inl err)
    | (s1, inr srr) => (afterDetails s1 (map_range srr).*1, inr (stored (details s)))
    end.
Proof.
  unfold fetchAndDecodeSnapshotsStats, details, stored.
  change (getAndParseURL decodeRepositories (started s) (repositoriesURL (started s)))
    with (discovery s).
  destruct (discovery s) as [s1 [err | srr]]; [done |].
  by rewrite foldl_fetchRepository.
Qed.

Lemma discovery_frame s :
  let s1 := (discovery s).1 in
  url s1 = url s /\ up s1 = up s
  /\ totalScrapes s1 = Counter_Inc (totalScrapes s)
  /\ snapshotMetrics s1 = snapshotMetrics s
  /\ repositoryMetrics s1 = repositoryMetrics s
  /\ counterDesc (jsonParseFailures s1) = counterDesc (jsonParseFailures s).
Proof.
  unfold discovery.
  destruct (getAndParseURL_frame decodeRepositories (started s) (repositoriesURL (started s)))
    as (-> & -> & -> & -> & -> & ->).
  done.
Qed.

(** When discovery fails, Collect sets the gauge to 0, logs the error and
    sends its three own metrics. *)
Lemma Collect_failed s s1 err :
  discovery s = (s1, inl err) ->
  Collect s
  = (set_logger (logger s1 ++ [Warn "failed to fetch and decode snapshot stats" err])
       (set_up (Gauge_Set (float64_of_int 0) (up s1)) s1),
     (bookkeeping, Some tt)).
Proof.
  intros H. unfold Collect.
  change (set_totalScrapes (Counter_Inc (totalScrapes s)) s) with (started s).
  by rewrite fetchAndDecodeSnapshotsStats_started, H.
Qed.

(** When discovery succeeds, Collect sets the gauge to 1 and runs its loop
    over the stored payloads before it sends its three own metrics. *)
Lemma Collect_ok s s1 srr :
  discovery s = (s1, inr srr) ->
  let s2 := set_up (Gauge_Set (float64_of_int 1)
                      (up (afterDetails s1 (map_range srr).*1)))
              (afterDetails s1 (map_range srr).*1) in
  Collect s
  = (s2,
     let '(sent, r) :=
       for_each (map_range (stored (details s)))
         (fun '(repositoryName, snapshotStats) =>
            collectRepository s2 repositoryName snapshotStats) in
     (sent ++ bookkeeping, r)).
Proof.
  intros H. unfold Collect.
  change (set_totalScrapes (Counter_Inc (totalScrapes s)) s) with (started s).
  rewrite fetchAndDecodeSnapshotsStats_started, H. simpl.
  by destruct (for_each _ _).
Qed.

Lemma Collect_ok_sent s s1 srr :
  constructed s ->
  discovery s = (s1, inr srr) ->
  (Collect s).2
  = (concat (samplesOf s <$> map_range (stored (details s))) ++ bookkeeping, Some tt).
Proof.
  intros Hc H. rewrite (Collect_ok s s1 srr H). simpl.
  pose proof (discovery_frame s) as (Hu & _ & _ & Hsm & Hrm & _).
  rewrite H in Hu, Hsm, Hrm. simpl in Hu, Hsm, Hrm.
  destruct (afterDetails_frame s1 (map_range srr).*1) as (Hu' & _ & _ & Hsm' & Hrm' & _).
  set (s2 := set_up _ _).
  assert (Hext : forall name p, collectRepository s2 name p = collectRepository s name p).
  { intros name p. apply collectRepository_ext; simpl; congruence. }
  rewrite for_each_returns.
  - f_equal. f_equal. f_equal. apply list_fmap_ext. intros i [name p] _. simpl.
    unfold samplesOf. simpl. by rewrite Hext.
  - apply Forall_forall. intros [name p] _. rewrite Hext.
    destruct (collectRepository_spec s name p Hc) as (sent1 & sent2 & -> & _). done.
Qed.

(** *** Counting what a cycle sends *)

Lemma length_concat_fmap_perm {A B : Type} (f : A -> list B) (l1 l2 : list A) :
  l1 ≡ₚ l2 -> length (concat (f <$> l1)) = length (concat (f <$> l2)).
Proof. induction 1; csimpl; rewrite ?length_app; lia. Qed.

Lemma elem_of_concat_fmap {A B : Type} (f : A -> list B) (l : list A) (y : B) :
  y ∈ concat (f <$> l) <-> exists x, x ∈ l /\ y ∈ f x.
Proof.
  induction l as [| x l IH]; simpl.
  - split; [by intros ?%elem_of_nil | by intros (? & ?%elem_of_nil & _)].
  - rewrite elem_of_app, IH. split.
    + intros [H | (x' & H1 & H2)].
      * exists x. split; [apply list_elem_of_here | done].
      * exists x'. split; [by apply list_elem_of_further | done].
    + intros (x' & [-> | H1]%elem_of_cons & H2); [by left | right; eauto].
Qed.

Lemma samplesOf_const s kp m :
  constructed s -> m ∈ samplesOf s kp ->
  exists c, m = Const c /\ repositoryOf c = Some kp.1.
Proof.
  intros Hc Hm. unfold samplesOf in Hm.
  destruct (collectRepository_spec s kp.1 kp.2 Hc) as (sent1 & sent2 & E & F1 & F2).
  rewrite E in Hm. simpl in Hm. apply elem_of_app in Hm as [Hm | Hm].
  - apply list_elem_of_lookup in Hm as [i Hi].
    destruct (Forall2_lookup_r _ _ _ _ _ F1 Hi) as (metric & _ & v & _ & ->). eauto.
  - destruct (last (ssr_Snapshots kp.2)) as [r |]; [| subst sent2; by apply elem_of_nil in Hm].
    apply list_elem_of_lookup in Hm as [i Hi].
    destruct (Forall2_lookup_r _ _ _ _ _ F2 Hi) as (metric & _ & v & _ & ->). eauto.
Qed.

Lemma dataSamples_bookkeeping (data : list Metric) :
  dataSamples (data ++ bookkeeping) = dataSamples data.
Proof. unfold dataSamples. rewrite omap_app. simpl. by rewrite app_nil_r. Qed.

Lemma dataSamples_length (data : list Metric) :
  Forall (fun m => exists c, m = Const c) data ->
  length (dataSamples data) = length data.
Proof.
  induction 1 as [| m data (c & ->) _ IH]; simpl; [done |]. unfold dataSamples in *.
  simpl. by rewrite IH.
Qed.

Lemma samples_length s (payloads : list (string * SnapshotStatsResponse)) :
  constructed s ->
  length (concat (samplesOf s <$> payloads))
  = (length (repositoryMetrics s) * length payloads
     + length (snapshotMetrics s)
       * length (filter (fun kp => hasRecords kp.2 = true) payloads))%nat.
Proof.
  intros Hc. induction payloads as [| [name p] rest IH]; csimpl; [lia |].
  rewrite length_app, IH. unfold samplesOf at 1. simpl.
  rewrite (collectRepository_length s name p Hc).
  destruct (hasRecords p) eqn:Hp.
  - rewrite filter_cons_True by done. simpl. lia.
  - rewrite filter_cons_False by (simpl; congruence). lia.
Qed.

Lemma details_NoDup s : NoDup (details s).*1.
Proof.
  unfold details. destruct (discovery s) as [s1 [err | srr]]; simpl.
  - constructor.
  - rewrite detailResults_keys. apply range_keys_NoDup.
Qed.

Lemma range_stored_details s : map_range (stored (details s)) ≡ₚ fetched (details s).
Proof. apply range_stored, details_NoDup. Qed.

Lemma fetched_elem_of (results : list (string * (error + SnapshotStatsResponse))) name p :
  (name, p) ∈ fetched results <-> (name, inr p) ∈ results.
Proof.
  unfold fetched. rewrite list_elem_of_omap. split.
  - intros ([k [e | p']] & Hin & Heq); simpl in Heq; [done |]. by simplify_eq.
  - intros Hin. exists (name, inr p). by split.
Qed.

Lemma failed_elem_of (results : list (string * (error + SnapshotStatsResponse))) name e :
  (name, e) ∈ failed results <-> (name, inl e) ∈ results.
Proof.
  unfold failed. rewrite list_elem_of_omap. split.
  - intros ([k [e' | p]] & Hin & Heq); simpl in Heq; [| done]. by simplify_eq.
  - intros Hin. exists (name, inl e). by split.
Qed.

Lemma fetched_length_le (results : list (string * (error + SnapshotStatsResponse))) :
  (length (fetched results) <= length results)%nat.
Proof.
  unfold fetched. induction results as [| [k [e | p]] rest IH]; csimpl; lia.
Qed.

(** *** The state after a cycle *)

Lemma Collect_counter s :
  counterValue (jsonParseFailures (Collect s).1)
  = (counterValue (jsonParseFailures s) + N.of_nat (decodeFailures s))%N.
Proof.
  unfold decodeFailures.
  pose proof (getAndParseURL_counter decodeRepositories (started s)
                (repositoriesURL (started s))) as Hc.
  change (getAndParseURL decodeRepositories (started s) (repositoriesURL (started s)))
    with (discovery s) in Hc.
  change (jsonParseFailures (started s)) with (jsonParseFailures s) in Hc.
  destruct (discovery s) as [s1 [err | srr]] eqn:H; simpl in Hc.
  - rewrite (Collect_failed s s1 err H), (details_failed s s1 err H). simpl.
    rewrite Hc. destruct (isDecodeError err); simpl; lia.
  - rewrite (Collect_ok s s1 srr H), (details_ok s s1 srr H). simpl.
    rewrite afterDetails_counter, Hc. lia.
Qed.

Lemma Collect_constructed s : constructed s -> constructed (Collect s).1.
Proof.
  intros [Hs Hr]. pose proof (discovery_frame s) as (Hu & _ & _ & Hsm & Hrm & _).
  destruct (discovery s) as [s1 [err | srr]] eqn:H; simpl in *.
  - rewrite (Collect_failed s s1 err H). split; simpl; congruence.
  - rewrite (Collect_ok s s1 srr H). simpl.
    destruct (afterDetails_frame s1 (map_range srr).*1) as (Hu' & _ & _ & Hsm' & Hrm' & _).
    split; simpl; congruence.
Qed.

Lemma NewSnapshots_constructed lg cl u : constructed (NewSnapshots lg cl u).
Proof. by split. Qed.

Lemma repeatCollect_counter n s :
  (counterValue (jsonParseFailures s)
   <= counterValue (jsonParseFailures (repeatCollect n s)))%N.
Proof.
  revert s. induction n as [| n IH]; intros s; simpl; [lia |].
  etransitivity; [| apply IH]. rewrite Collect_counter. lia.
Qed.

(** The gauge after a cycle. *)
Lemma Collect_up s :
  gaugeValue (up (Collect s).1)
  = float64_of_int (if isOk (discovery s).2 then 1 else 0).
Proof.
  destruct (discovery s) as [s1 [err | srr]] eqn:H; simpl.
  - by rewrite (Collect_failed s s1 err H).
  - by rewrite (Collect_ok s s1 srr H).
Qed.

(** The log after a cycle in which discovery succeeded: the lines of bodies
    that did not close, and no other. *)
Lemma Collect_ok_logger s s1 srr :
  discovery s = (s1, inr srr) ->
  exists extra,
    logger (Collect s).1 = logger s ++ extra
    /\ Forall (fun l => isCloseWarning l = true) extra.
Proof.
  intros H. rewrite (Collect_ok s s1 srr H). simpl.
  destruct (afterDetails_logger s1 (map_range srr).*1) as (extra2 & -> & H2).
  destruct (getAndParseURL_logger decodeRepositories (started s)
              (repositoriesURL (started s))) as (extra1 & E1 & H1).
  change (getAndParseURL decodeRepositories (started s) (repositoriesURL (started s)))
    with (discovery s) in E1.
  rewrite H in E1. simpl in E1. rewrite E1.
  exists (extra1 ++ extra2). split; [by rewrite app_assoc | by apply Forall_app].
Qed.

Lemma NoDup_fst_functional {V : Type} (l : list (string * V)) k v1 v2 :
  NoDup l.*1 -> (k, v1) ∈ l -> (k, v2) ∈ l -> v1 = v2.
Proof.
  intros Hnd H1 H2.
  apply (elem_of_list_to_map (M := gmap string) l k v1 Hnd) in H1.
  apply (elem_of_list_to_map (M := gmap string) l k v2 Hnd) in H2.
  congruence.
Qed.

(** The mapping holds the payload of a repository exactly when its detail
    fetch succeeded. *)
Lemma stored_lookup s name p :
  stored (details s) !! name = Some p <-> (name, inr p) ∈ details s.
Proof.
  pose proof (details_NoDup s) as Hnd. unfold stored.
  rewrite foldl_insert_list_to_map, (right_id_L ∅ (∪)).
  rewrite <- elem_of_list_to_map.
  - by rewrite elem_of_reverse, fetched_elem_of.
  - rewrite fmap_reverse, reverse_Permutation.
    eapply sublist_NoDup; [done | apply fetched_keys_sublist].
Qed.

Lemma stored_lookup_failed s name err :
  (name, inl err) ∈ details s -> stored (details s) !! name = None.
Proof.
  intros Hin. destruct (stored (details s) !! name) as [p |] eqn:Hp; [| done].
  apply stored_lookup in Hp.
  by pose proof (NoDup_fst_functional _ _ _ _ (details_NoDup s) Hin Hp).
Qed.

Lemma details_dom s s1 srr name r :
  discovery s = (s1, inr srr) -> (name, r) ∈ details s -> name ∈ dom srr.
Proof.
  intros H Hin. apply range_keys_dom. rewrite <- (detailResults_keys s1).
  rewrite <- (details_ok s s1 srr H). apply list_elem_of_fmap. by exists (name, r).
Qed.

(** *** Where the data samples of a cycle come from *)

Lemma elem_of_dataSamples (sent : list Metric) c : c ∈ dataSamples sent <-> Const c ∈ sent.
Proof.
  unfold dataSamples. rewrite list_elem_of_omap. split.
  - intros ([] & Hin & Heq); by simplify_eq.
  - intros Hin. by exists (Const c).
Qed.

Lemma range_stored_elem_of s name p :
  (name, p) ∈ map_range (stored (details s)) <-> (name, inr p) ∈ details s.
Proof. by rewrite range_stored_details, fetched_elem_of. Qed.

Lemma data_sample_origin s s1 srr c :
  constructed s ->
  discovery s = (s1, inr srr) ->
  c ∈ dataSamples (Collect s).2.1 ->
  exists name p,
    (name, inr p) ∈ details s
    /\ Const c ∈ samplesOf s (name, p)
    /\ repositoryOf c = Some name.
Proof.
  intros Hc H Hin. rewrite (Collect_ok_sent s s1 srr Hc H) in Hin. simpl in Hin.
  rewrite dataSamples_bookkeeping in Hin. apply elem_of_dataSamples in Hin.
  apply elem_of_concat_fmap in Hin as ([name p] & Hkp & Hm).
  exists name, p. split; [by apply range_stored_elem_of |]. split; [done |].
  destruct (samplesOf_const s (name, p) (Const c) Hc Hm) as (c' & [= <-] & Hr). done.
Qed.

Lemma samples_sent s s1 srr name p m :
  constructed s ->
  discovery s = (s1, inr srr) ->
  (name, inr p) ∈ details s ->
  m ∈ samplesOf s (name, p) ->
  m ∈ (Collect s).2.1.
Proof.
  intros Hc H Hin Hm. rewrite (Collect_ok_sent s s1 srr Hc H). simpl.
  apply elem_of_app. left. apply elem_of_concat_fmap.
  exists (name, p). split; [by apply range_stored_elem_of | done].
Qed.

Lemma details_length s s1 srr :
  discovery s = (s1, inr srr) -> length (details s) = size srr.
Proof.
  intros H. rewrite (details_ok s s1 srr H).
  rewrite <- (length_fmap fst), detailResults_keys, length_fmap.
  rewrite map_range_perm. apply length_map_to_list.
Qed.

Lemma data_sample_count s s1 srr :
  constructed s ->
  discovery s = (s1, inr srr) ->
  length (dataSamples (Collect s).2.1)
  = (length (repositoryMetrics s) * length (fetched (details s))
     + length (snapshotMetrics s)
       * length (filter (fun kp => hasRecords kp.2 = true) (fetched (details s))))%nat.
Proof.
  intros Hc H. rewrite (Collect_ok_sent s s1 srr Hc H). simpl.
  rewrite dataSamples_bookkeeping, dataSamples_length.
  - rewrite (length_concat_fmap_perm _ _ _ (range_stored_details s)).
    by apply samples_length.
  - apply Forall_forall. intros m ([name p] & _ & Hm)%elem_of_concat_fmap.
    destruct (samplesOf_const s (name, p) m Hc Hm) as (c & -> & _). eauto.
Qed.

End facts.
End snapshots_facts.

(** ** The indices-settings collector *)

Module indices_settings_facts.
Import indices_settings indices_settings_cycle.

Section facts.
Context {rt : Runtime}.

Ltac fetch_cases decode cs u :=
  unfold getAndParseURL;
  destruct (http_Get u (client cs)) as [[res | cause] w]; simpl;
  [ destruct (StatusCode res =? StatusOK) eqn:Hcode; simpl;
    [ destruct (decode (Body res)) as [derr | data] eqn:Hdec; simpl | ];
    unfold closeBody; destruct (CloseErr res); simpl
  | ].

Lemma CounterVec_value_Inc lv v :
  CounterVec_value lv (CounterVec_Inc lv v) = N.succ (CounterVec_value lv v).
Proof. unfold CounterVec_value, CounterVec_Inc. simpl. by rewrite lookup_insert_eq. Qed.

Lemma GaugeVec_value_Set lv x v : GaugeVec_value lv (GaugeVec_Set lv x v) = Some x.
Proof. unfold GaugeVec_value, GaugeVec_Set. simpl. by rewrite lookup_insert_eq. Qed.

Lemma settings_getAndParseURL_frame {A : Type} (decode : string -> string + A) cs u :
  let cs' := (getAndParseURL decode cs u).1 in
  url cs' = url cs /\ up cs' = up cs /\ readOnlyIndices cs' = readOnlyIndices cs
  /\ totalScrapes cs' = totalScrapes cs.
Proof. fetch_cases decode cs u; repeat split; reflexivity. Qed.

Lemma settings_getAndParseURL_counter {A : Type} (decode : string -> string + A) cs u :
  CounterVec_value (label cs) (jsonParseFailures (getAndParseURL decode cs u).1)
  = (CounterVec_value (label cs) (jsonParseFailures cs)
     + (if parseFailed (getAndParseURL decode cs u).2 then 1 else 0))%N.
Proof.
  unfold label. fetch_cases decode cs u; rewrite ?CounterVec_value_Inc; lia.
Qed.

Lemma settings_getAndParseURL_status {A : Type} (decode : string -> string + A) cs u res w :
  http_Get u (client cs) = (inl res, w) ->
  StatusCode res <> StatusOK ->
  (getAndParseURL decode cs u).2 = inl (StatusError (StatusCode res))
  /\ jsonParseFailures (getAndParseURL decode cs u).1 = jsonParseFailures cs.
Proof.
  intros Hget Hne. unfold getAndParseURL. rewrite Hget. simpl.
  destruct (Z.eqb_spec (StatusCode res) StatusOK) as [Heq | _]; [done |]. simpl.
  unfold closeBody. by destruct (CloseErr res).
Qed.

Lemma settings_discovery_frame cs :
  let cs1 := (discovery cs).1 in
  url cs1 = url cs /\ up cs1 = up cs /\ readOnlyIndices cs1 = readOnlyIndices cs
  /\ totalScrapes cs1 = CounterVec_Inc (label cs) (totalScrapes cs).
Proof.
  unfold discovery.
  destruct (settings_getAndParseURL_frame decodeIndicesSettings (started cs) (settingsURL (started cs)))
    as (-> & -> & -> & ->).
  done.
Qed.

(** When the settings fetch fails, Collect sets both gauges to 0, logs the
    error and returns without sending. *)
Lemma settings_Collect_failed cs cs1 err :
  discovery cs = (cs1, inl err) ->
  Collect cs
  = (set_logger
       (logger cs1 ++ [Warn "failed to fetch and decode cluster settings stats" err])
       (set_up (GaugeVec_Set (label cs) (float64_of_int 0) (up cs1))
          (set_readOnlyIndices
             (GaugeVec_Set (label cs) (float64_of_int 0) (readOnlyIndices cs1)) cs1)),
     []).
Proof.
  intros H. unfold Collect, fetchAndDecodeIndicesSettings.
  change (set_totalScrapes _ cs) with (started cs).
  change (getAndParseURL decodeIndicesSettings (started cs) (settingsURL (started cs)))
    with (discovery cs).
  by rewrite H.
Qed.

Lemma settings_Collect_ok_state cs cs1 asr :
  discovery cs = (cs1, inr asr) ->
  (Collect cs).1
  = set_readOnlyIndices
      (GaugeVec_Set (label cs) (float64_of_int (countReadOnly asr)) (readOnlyIndices cs1))
      (set_up (GaugeVec_Set (label cs) (float64_of_int 1) (up cs1)) cs1).
Proof.
  intros H. unfold Collect, fetchAndDecodeIndicesSettings.
  change (set_totalScrapes _ cs) with (started cs).
  change (getAndParseURL decodeIndicesSettings (started cs) (settingsURL (started cs)))
    with (discovery cs).
  by rewrite H.
Qed.

Lemma settings_Collect_jsonParseFailures cs :
  jsonParseFailures (Collect cs).1 = jsonParseFailures (discovery cs).1.
Proof.
  destruct (discovery cs) as [cs1 [err | asr]] eqn:H.
  - by rewrite (settings_Collect_failed cs cs1 err H).
  - by rewrite (settings_Collect_ok_state cs cs1 asr H).
Qed.

Lemma settings_Collect_url cs : url (Collect cs).1 = url cs.
Proof.
  pose proof (settings_discovery_frame cs) as (Hu & _).
  destruct (discovery cs) as [cs1 [err | asr]] eqn:H.
  - by rewrite (settings_Collect_failed cs cs1 err H).
  - by rewrite (settings_Collect_ok_state cs cs1 asr H).
Qed.

Lemma settings_Collect_counter cs :
  CounterVec_value (label cs) (jsonParseFailures (Collect cs).1)
  = (CounterVec_value (label cs) (jsonParseFailures cs)
     + N.of_nat (decodeFailures cs))%N.
Proof.
  rewrite settings_Collect_jsonParseFailures. unfold discovery, decodeFailures.
  pose proof (settings_getAndParseURL_counter decodeIndicesSettings (started cs)
                (settingsURL (started cs))) as Hc.
  unfold discovery. change (label (started cs)) with (label cs) in Hc.
  rewrite Hc. simpl. by destruct (parseFailed _).
Qed.

End facts.
End indices_settings_facts.

(** ** The claims *)

Module snf := snapshots_facts.
Module ixf := indices_settings_facts.

(** The snapshots collector does what is asked of a failed discovery: the
    gauge is 0 and the three own metrics are all that is sent. *)
Lemma Snapshots_discovery_failure `{rt : Runtime} (s : sn.Snapshots) :
  isOk (snc.discovery s).2 = false ->
  (sn.Collect s).2 = ([sn.GaugeUp; sn.CounterTotalScrapes; sn.CounterJsonParseFailures],
                      Some tt)
  /\ snc.dataSamples (sn.Collect s).2.1 = []
  /\ (sn.Write (sn.Collect s).1 sn.GaugeUp).2 = float64_of_int 0.
Proof.
  intros H. destruct (snc.discovery s) as [s1 [err | srr]] eqn:Hd; [| done].
  by rewrite (snf.Collect_failed s s1 err Hd).
Qed.

(** C1 (the indices-settings collector breaks it): when the settings fetch
    or its decoding fails, Collect of the indices-settings collector returns
    before anything is sent, so not one of up, total_scrapes and
    json_parse_failures is emitted on that path, where the specification
    wants exactly these three on every exit path. *)
Theorem C1_IndicesSettings_failure_sends_nothing `{rt : Runtime} (cs : ix.IndicesSettings) :
  isOk (ixc.discovery cs).2 = false ->
  (ix.Collect cs).2 = [].
Proof.
  intros H. destruct (ixc.discovery cs) as [cs1 [err | asr]] eqn:Hd; [| done].
  by rewrite (ixf.settings_Collect_failed cs cs1 err Hd).
Qed.

Lemma C1_IndicesSettings_failure_witness :
  isOk (ixc.discovery (example.settingsOn 1)).2 = false
  /\ (ix.Collect (example.settingsOn 1)).2 = [].
Proof.
  split; [vm_compute; reflexivity |].
  apply (C1_IndicesSettings_failure_sends_nothing (example.settingsOn 1)).
  vm_compute; reflexivity.
Defined.

(** C2 (the snapshots collector breaks it): Describe of a new snapshots
    collector sends the seven descriptors of the per-snapshot table and the
    three of up, total_scrapes and json_parse_failures, ten in all, and
    neither of the two descriptors of the per-repository table, which the
    specification wants described as well. *)
Theorem C2_Describe_omits_repository_table `{rt : Runtime}
    (lg : list LogEntry) (cl : World) (u : URL) :
  let s := sn.NewSnapshots lg cl u in
  sn.Describe s
  = (sn.sm_Desc <$> sn.snapshotMetrics s)
    ++ [gaugeDesc (sn.up s); counterDesc (sn.totalScrapes s);
        counterDesc (sn.jsonParseFailures s)]
  /\ length (sn.Describe s) = 10%nat
  /\ length (sn.repositoryMetrics s) = 2%nat
  /\ Forall (fun metric => sn.rm_Desc metric ∉ sn.Describe s) (sn.repositoryMetrics s).
Proof.
  simpl. repeat split.
  repeat constructor; simpl; intros Hin;
    repeat (apply elem_of_cons in Hin as [Hin | Hin]; [discriminate Hin |]);
    by apply elem_of_nil in Hin.
Qed.

(** The indices-settings collector has no table: its Describe sends the
    descriptors of its four vectors. *)
Lemma IndicesSettings_Describe `{rt : Runtime} (cs : ix.IndicesSettings) :
  (ix.Describe cs).2
  = [gvDesc (ix.up cs); cvDesc (ix.totalScrapes cs); gvDesc (ix.readOnlyIndices cs);
     cvDesc (ix.jsonParseFailures cs)].
Proof.
  unfold ix.Describe, GaugeVec_With, CounterVec_With. simpl.
  repeat match goal with |- context [match ?x with Some _ => _ | None => _ end] =>
    destruct x end; reflexivity.
Qed.

(** C3: after Collect the gauge up is 1 exactly when the discovery fetch of
    that cycle succeeded, and 0 otherwise, in both collectors; the detail
    fetches of the snapshots collector have no say in it. *)
Theorem C3_up_iff_discovery_succeeded `{rt : Runtime} :
  (forall s : sn.Snapshots,
      (gaugeValue (sn.up (sn.Collect s).1) = float64_of_int 1
       <-> isOk (snc.discovery s).2 = true)
      /\ (gaugeValue (sn.up (sn.Collect s).1) = float64_of_int 0
          <-> isOk (snc.discovery s).2 = false))
  /\ (forall cs : ix.IndicesSettings,
      (GaugeVec_value (ixc.label cs) (ix.up (ix.Collect cs).1) = Some (float64_of_int 1)
       <-> isOk (ixc.discovery cs).2 = true)
      /\ (GaugeVec_value (ixc.label cs) (ix.up (ix.Collect cs).1) = Some (float64_of_int 0)
          <-> isOk (ixc.discovery cs).2 = false)).
Proof.
  pose proof float64_one_not_zero as Hne. split.
  - intros s. rewrite snf.Collect_up.
    destruct (isOk (snc.discovery s).2); split; split; intros H; congruence.
  - intros cs. destruct (ixc.discovery cs) as [cs1 [err | asr]] eqn:Hd; simpl.
    + rewrite (ixf.settings_Collect_failed cs cs1 err Hd). simpl.
      rewrite ixf.GaugeVec_value_Set. split; split; intros H; congruence.
    + rewrite (ixf.settings_Collect_ok_state cs cs1 asr Hd). simpl.
      rewrite ixf.GaugeVec_value_Set. split; split; intros H; congruence.
Qed.

(** Every detail fetch fails and the gauge is 1 all the same. *)
Example up_is_1_when_every_detail_fetch_fails :
  snc.fetched (snc.details (example.snapshotsOn 3)) = []
  /\ length (snc.details (example.snapshotsOn 3)) = 4%nat
  /\ gaugeValue (sn.up (sn.Collect (example.snapshotsOn 3)).1) = float64_of_int 1.
Proof. vm_compute. done. Qed.

(** The parse-failure counter of the indices-settings collector over
    several cycles. *)
Lemma IndicesSettings_repeatCollect_counter `{rt : Runtime} (n : nat) (cs : ix.IndicesSettings) :
  (CounterVec_value (ixc.label cs) (ix.jsonParseFailures cs)
   <= CounterVec_value (ixc.label cs) (ix.jsonParseFailures (ixc.repeatCollect n cs)))%N.
Proof.
  revert cs. induction n as [| n IH]; intros cs; simpl; [lia |].
  pose proof (IH (ix.Collect cs).1) as IH'.
  assert (Hl : ixc.label (ix.Collect cs).1 = ixc.label cs)
    by (unfold ixc.label; by rewrite ixf.settings_Collect_url).
  rewrite Hl in IH'. pose proof (ixf.settings_Collect_counter cs). lia.
Qed.

(** C9: when the settings fetch or its decoding fails, Collect of the
    indices-settings collector sets the gauge readOnlyIndices to 0, whatever
    it held before. *)
Theorem C9_readOnlyIndices_zero_after_failure `{rt : Runtime} (cs : ix.IndicesSettings) :
  isOk (ixc.discovery cs).2 = false ->
  GaugeVec_value (ixc.label cs) (ix.readOnlyIndices (ix.Collect cs).1)
  = Some (float64_of_int 0).
Proof.
  intros H. destruct (ixc.discovery cs) as [cs1 [err | asr]] eqn:Hd; [| done].
  rewrite (ixf.settings_Collect_failed cs cs1 err Hd). simpl. apply ixf.GaugeVec_value_Set.
Qed.

(** After a cycle that counted one read-only index the cluster goes down:
    the next cycle leaves 0 in the gauge. *)
Lemma C9_readOnlyIndices_witness :
  GaugeVec_value (ixc.label (example.settingsOn 0))
    (ix.readOnlyIndices (ix.Collect (example.settingsOn 0)).1)
  = Some (float64_of_int 1)
  /\ isOk (ixc.discovery example.settingsThenDown).2 = false
  /\ GaugeVec_value (ixc.label example.settingsThenDown)
       (ix.readOnlyIndices (ix.Collect example.settingsThenDown).1)
     = Some (float64_of_int 0).
Proof.
  split; [vm_compute; reflexivity |].
  split; [vm_compute; reflexivity |].
  apply (C9_readOnlyIndices_zero_after_failure example.settingsThenDown).
  vm_compute; reflexivity.
Defined.

(** C8: every value function of the two tables returns, on every payload,
    without a panic, a float64 that is not NaN; on a payload without
    snapshots the number of snapshots and the timestamp of the oldest
    snapshot are 0, and on a record without indices or without failures the
    number of indices and the number of failures are 0. *)
Theorem C8_value_functions_total `{rt : Runtime} (cl : gmap string string) :
  Forall (fun metric =>
            forall r, exists v, sn.sm_Value metric r = Some v /\ v <> S754_nan)
         (sn.newSnapshotMetrics cl)
  /\ Forall (fun metric =>
               forall p, exists v, sn.rm_Value metric p = Some v /\ v <> S754_nan)
            (sn.newRepositoryMetrics cl)
  /\ Forall (fun metric => sn.rm_Value metric (mkStats []) = Some (float64_of_int 0))
            (sn.newRepositoryMetrics cl)
  /\ (forall version state start finish failures shards,
         (sn.newSnapshotMetrics cl !! 0%nat)
           ≫= (fun metric =>
                 sn.sm_Value metric (mkSnapshot version [] state start finish failures shards))
         = Some (float64_of_int 0))
  /\ (forall version indices state start finish shards,
         (sn.newSnapshotMetrics cl !! 3%nat)
           ≫= (fun metric =>
                 sn.sm_Value metric (mkSnapshot version indices state start finish [] shards))
         = Some (float64_of_int 0)).
Proof.
  repeat apply conj.
  - repeat constructor; intros r; eexists; (split; [reflexivity |]);
      apply float64_of_int_not_nan.
  - repeat constructor; intros [snaps]; simpl.
    + eexists; split; [reflexivity | apply float64_of_int_not_nan].
    + destruct snaps as [| first rest]; simpl;
        eexists; (split; [reflexivity |]); apply float64_of_int_not_nan.
  - repeat constructor.
  - reflexivity.
  - reflexivity.
Qed.

(** C10: for a record whose timestamps are int64 values, the start-time and
    end-time metrics are the float64 of the timestamp divided by 1000 and
    rounded toward zero, the whole seconds of the milliseconds, and so is
    the oldest-snapshot metric of a payload whose first record it is. *)
Theorem C10_timestamps_in_whole_seconds `{rt : Runtime} (cl : gmap string string)
    (r : SnapshotStatDataResponse) (rest : list SnapshotStatDataResponse) :
  is_int64 (StartTimeInMillis r) ->
  is_int64 (EndTimeInMillis r) ->
  exists start finish oldest,
    sn.newSnapshotMetrics cl !! 1%nat = Some start
    /\ sn.newSnapshotMetrics cl !! 2%nat = Some finish
    /\ sn.newRepositoryMetrics cl !! 1%nat = Some oldest
    /\ help (sn.sm_Desc start) = "Last snapshot start timestamp"
    /\ help (sn.sm_Desc finish) = "Last snapshot end timestamp"
    /\ help (sn.rm_Desc oldest) = "Timestamp of the oldest snapshot"
    /\ sn.sm_Value start r = Some (float64_of_int (StartTimeInMillis r ÷ 1000))
    /\ sn.sm_Value finish r = Some (float64_of_int (EndTimeInMillis r ÷ 1000))
    /\ sn.rm_Value oldest (mkStats (r :: rest))
       = Some (float64_of_int (StartTimeInMillis r ÷ 1000))
    /\ wholeSeconds (StartTimeInMillis r) (StartTimeInMillis r ÷ 1000)
    /\ wholeSeconds (EndTimeInMillis r) (EndTimeInMillis r ÷ 1000).
Proof.
  intros Hs He. do 3 eexists.
  do 6 (split; [reflexivity |]). simpl.
  rewrite !int64_quo_1000 by done.
  do 3 (split; [reflexivity |]).
  split; apply quot_1000_wholeSeconds.
Qed.

(** The second snapshot of the example started 200999 ms and ended 201001 ms
    after the epoch: the metrics say 200 and 201; a start 1999 ms before the
    epoch is second -1, not -2. *)
Lemma C10_timestamps_witness :
  is_int64 (StartTimeInMillis example.secondSnapshot)
  /\ is_int64 (EndTimeInMillis example.secondSnapshot)
  /\ (sn.newSnapshotMetrics (rt := example.cluster) ∅ !! 1%nat)
       ≫= (fun metric => sn.sm_Value metric example.secondSnapshot)
     = Some (float64_of_int 200)
  /\ (sn.newSnapshotMetrics (rt := example.cluster) ∅ !! 2%nat)
       ≫= (fun metric => sn.sm_Value metric example.secondSnapshot)
     = Some (float64_of_int 201)
  /\ (-1999) ÷ 1000 = -1.
Proof.
  assert (H1 : is_int64 (StartTimeInMillis example.secondSnapshot))
    by (unfold is_int64; simpl; lia).
  assert (H2 : is_int64 (EndTimeInMillis example.secondSnapshot))
    by (unfold is_int64; simpl; lia).
  destruct (C10_timestamps_in_whole_seconds (rt := example.cluster) ∅
              example.secondSnapshot [] H1 H2)
    as (start & finish & oldest & E1 & E2 & _ & _ & _ & _ & V1 & V2 & _).
  split; [exact H1 |]. split; [exact H2 |].
  rewrite E1, E2. simpl. rewrite V1, V2. repeat split.
Defined.

(** C4: in a cycle whose discovery lists N repositories, of which the detail
    fetches of M succeed, K of them with at least one record, Collect sends
    (number of per-repository descriptors) * M + (number of per-snapshot
    descriptors) * K data samples, that is 2 * M + 7 * K, and every data
    sample is about a repository of the discovery output. *)
Theorem C4_data_sample_count `{rt : Runtime} (s : sn.Snapshots)
    (srr : SnapshotRepositoriesResponse) :
  snc.constructed s ->
  (snc.discovery s).2 = inr srr ->
  let succeeded := snc.fetched (snc.details s) in
  let withRecords := filter (fun kp => snc.hasRecords kp.2 = true) succeeded in
  length (snc.details s) = size srr
  /\ (length succeeded <= size srr)%nat
  /\ length (snc.dataSamples (sn.Collect s).2.1)
     = (length (sn.repositoryMetrics s) * length succeeded
        + length (sn.snapshotMetrics s) * length withRecords)%nat
  /\ length (sn.repositoryMetrics s) = 2%nat
  /\ length (sn.snapshotMetrics s) = 7%nat
  /\ (forall c, c ∈ snc.dataSamples (sn.Collect s).2.1 ->
        exists name, snc.repositoryOf c = Some name /\ name ∈ dom srr).
Proof.
  intros Hc Hd. destruct (snc.discovery s) as [s1 r] eqn:H. simpl in Hd. subst r. simpl.
  pose proof (snf.details_length s s1 srr H) as Hlen.
  split; [done |].
  split; [rewrite <- Hlen; apply snf.fetched_length_le |].
  split; [by apply (snf.data_sample_count s s1 srr) |].
  destruct Hc as [Hs Hr]. split; [by rewrite Hr |]. split; [by rewrite Hs |].
  intros c Hin.
  destruct (snf.data_sample_origin s s1 srr c (conj Hs Hr) H Hin) as (name & p & Hd & _ & Hn).
  exists name. split; [done |]. by eapply snf.details_dom.
Qed.

(** On the cluster in condition 0: four repositories, two detail fetches
    that succeed, one of them with records, and 2 * 2 + 7 * 1 = 11 data
    samples. *)
Lemma C4_data_sample_count_witness :
  size example.repositories = 4%nat
  /\ length (snc.fetched (snc.details (example.snapshotsOn 0))) = 2%nat
  /\ length (snc.dataSamples (sn.Collect (example.snapshotsOn 0)).2.1) = 11%nat.
Proof.
  assert (Hc : snc.constructed (example.snapshotsOn 0)) by (split; reflexivity).
  assert (Hd : (snc.discovery (example.snapshotsOn 0)).2 = inr example.repositories)
    by (vm_compute; reflexivity).
  destruct (C4_data_sample_count (example.snapshotsOn 0) example.repositories Hc Hd)
    as (_ & _ & Hn & _).
  split; [vm_compute; reflexivity |].
  split; [vm_compute; reflexivity |].
  rewrite Hn. vm_compute. reflexivity.
Defined.

(** C6: in a cycle whose discovery succeeds, Collect sends, for every stored
    payload, first the per-repository descriptors applied to the payload,
    whatever its records, and then, when the payload has records and only
    then, the per-snapshot descriptors applied to the last record of the
    sequence as it came; the three own metrics follow. *)
Theorem C6_latest_record_when_records `{rt : Runtime} (s : sn.Snapshots)
    (srr : SnapshotRepositoriesResponse) :
  snc.constructed s ->
  (snc.discovery s).2 = inr srr ->
  (sn.Collect s).2
  = (concat (snc.samplesOf s <$> map_range (snc.stored (snc.details s)))
     ++ sn.bookkeeping, Some tt)
  /\ (forall name p,
        snc.stored (snc.details s) !! name = Some p <-> (name, inr p) ∈ snc.details s)
  /\ (forall name p,
        exists sent1 sent2,
          snc.samplesOf s (name, p) = sent1 ++ sent2
          /\ Forall2 (snc.appliedToPayload name p) (sn.repositoryMetrics s) sent1
          /\ match last (ssr_Snapshots p) with
             | Some r => Forall2 (snc.appliedToRecord name r) (sn.snapshotMetrics s) sent2
             | None => sent2 = []
             end
          /\ (sent2 = [] <-> ssr_Snapshots p = [])).
Proof.
  intros Hc Hd. destruct (snc.discovery s) as [s1 r] eqn:H. simpl in Hd. subst r.
  split; [by apply (snf.Collect_ok_sent s s1 srr) |].
  split; [intros name p; apply snf.stored_lookup |].
  intros name p.
  destruct (snf.collectRepository_spec s name p Hc) as (sent1 & sent2 & E & F1 & F2).
  exists sent1, sent2. unfold snc.samplesOf. simpl. rewrite E.
  split; [done |]. split; [done |]. split; [done |].
  destruct (last (ssr_Snapshots p)) as [r |] eqn:Hlast.
  - apply Forall2_length in F2. destruct Hc as [Hs _]. rewrite Hs in F2. simpl in F2.
    split; [intros -> | intros Hnil; by rewrite Hnil in Hlast]. done.
  - apply last_None in Hlast. done.
Qed.

(** On the cluster in condition 0 the stored payloads are those of b (two
    snapshots) and c (none); what Collect sends is as the theorem says. *)
Lemma C6_latest_record_witness :
  snc.constructed (example.snapshotsOn 0)
  /\ (snc.discovery (example.snapshotsOn 0)).2 = inr example.repositories
  /\ (sn.Collect (example.snapshotsOn 0)).2
     = (concat (snc.samplesOf (example.snapshotsOn 0)
                  <$> example.range _ (snc.stored (snc.details (example.snapshotsOn 0))))
        ++ sn.bookkeeping, Some tt).
Proof.
  assert (Hc : snc.constructed (example.snapshotsOn 0)) by (split; reflexivity).
  assert (Hd : (snc.discovery (example.snapshotsOn 0)).2 = inr example.repositories)
    by (vm_compute; reflexivity).
  split; [exact Hc |]. split; [exact Hd |].
  exact (proj1 (C6_latest_record_when_records (example.snapshotsOn 0)
                  example.repositories Hc Hd)).
Defined.

(** The labels of what is sent for b, whose records are one in state SUCCESS
    and then one in state PARTIAL, and for c, which has no record; with the
    two records of b the other way round the last one still decides: the
    sequence is not sorted. *)
Example latest_record_is_the_last_one :
  cm_labelValues
    <$> snc.dataSamples
          (snc.samplesOf (example.snapshotsOn 0)
             ("b", mkStats [example.firstSnapshot; example.secondSnapshot]))
  = [["b"]; ["b"];
     ["b"; "PARTIAL"; "6.8.0"]; ["b"; "PARTIAL"; "6.8.0"]; ["b"; "PARTIAL"; "6.8.0"];
     ["b"; "PARTIAL"; "6.8.0"]; ["b"; "PARTIAL"; "6.8.0"]; ["b"; "PARTIAL"; "6.8.0"];
     ["b"; "PARTIAL"; "6.8.0"]]
  /\ (fun c => (help (cm_desc c), cm_labelValues c, cm_value c))
       <$> snc.dataSamples (snc.samplesOf (example.snapshotsOn 0) ("c", mkStats []))
     = [("Number of snapshots in a repository", ["c"], float64_of_int 0);
        ("Timestamp of the oldest snapshot", ["c"], float64_of_int 0)]
  /\ last (cm_labelValues
             <$> snc.dataSamples
                   (snc.samplesOf (example.snapshotsOn 0)
                      ("b", mkStats [example.secondSnapshot; example.firstSnapshot])))
     = Some ["b"; "SUCCESS"; "6.8.0"].
Proof. vm_compute. done. Qed.

(** C5 as it is written fails: on the cluster in condition 0 the detail
    fetches of a and d fail and Collect logs nothing. *)
Lemma C5_failure_not_logged_counterexample :
  ~ snc.failuresLogged (example.snapshotsOn 0).
Proof.
  intros Hlogged.
  assert (Hfailed : snc.failed (snc.details (example.snapshotsOn 0))
                    = [("a", StatusError 500); ("d", DecodeError "invalid character")])
    by (vm_compute; reflexivity).
  destruct (Hlogged "a" (StatusError 500)) as [msg Hin].
  { rewrite Hfailed. apply list_elem_of_here. }
  assert (Hlog : sn.logger (sn.Collect (example.snapshotsOn 0)).1 = [])
    by (vm_compute; reflexivity).
  rewrite Hlog in Hin. by apply elem_of_nil in Hin.
Qed.

(** C5, amended: in a cycle whose discovery succeeds every discovered
    repository gets its detail fetch; a repository whose fetch fails is left
    out of the mapping and of what is sent, without a line in the log about
    it (the only lines of such a cycle are about bodies that did not close);
    a repository whose fetch succeeds is in the mapping with its payload and
    all its samples are sent; Collect returns and the gauge up is 1. *)
Theorem C5_failed_entity_left_out `{rt : Runtime} (s : sn.Snapshots)
    (srr : SnapshotRepositoriesResponse) :
  snc.constructed s ->
  (snc.discovery s).2 = inr srr ->
  (snc.details s).*1 = (map_range srr).*1
  /\ (sn.fetchAndDecodeSnapshotsStats (snc.started s)).2 = inr (snc.stored (snc.details s))
  /\ (forall name err,
        (name, inl err) ∈ snc.details s ->
        snc.stored (snc.details s) !! name = None
        /\ forall c, c ∈ snc.dataSamples (sn.Collect s).2.1 -> snc.repositoryOf c <> Some name)
  /\ (forall name p,
        (name, inr p) ∈ snc.details s ->
        snc.stored (snc.details s) !! name = Some p
        /\ forall m, m ∈ snc.samplesOf s (name, p) -> m ∈ (sn.Collect s).2.1)
  /\ (sn.Collect s).2.2 = Some tt
  /\ gaugeValue (sn.up (sn.Collect s).1) = float64_of_int 1
  /\ exists extra,
       sn.logger (sn.Collect s).1 = sn.logger s ++ extra
       /\ Forall (fun l => snc.isCloseWarning l = true) extra.
Proof.
  intros Hc Hd. destruct (snc.discovery s) as [s1 r] eqn:H. simpl in Hd. subst r.
  split; [by rewrite (snf.details_ok s s1 srr H), snf.detailResults_keys |].
  split; [by rewrite snf.fetchAndDecodeSnapshotsStats_started, H |].
  split.
  { intros name err Hin. split; [by eapply snf.stored_lookup_failed |].
    intros c Hc' Hname.
    destruct (snf.data_sample_origin s s1 srr c Hc H Hc') as (name' & p & Hd & _ & Hn).
    assert (name' = name) as -> by congruence.
    by pose proof (snf.NoDup_fst_functional _ _ _ _ (snf.details_NoDup s) Hin Hd). }
  split.
  { intros name p Hin. split; [by apply snf.stored_lookup |].
    intros m Hm. by eapply snf.samples_sent. }
  split; [by rewrite (snf.Collect_ok_sent s s1 srr Hc H) |].
  split; [rewrite snf.Collect_up; by rewrite H |].
  by eapply snf.Collect_ok_logger.
Qed.

(** On the cluster in condition 0: a is left out, b is kept, the gauge is 1
    and the log is empty. *)
Lemma C5_failed_entity_left_out_witness :
  snc.constructed (example.snapshotsOn 0)
  /\ (snc.discovery (example.snapshotsOn 0)).2 = inr example.repositories
  /\ snc.stored (snc.details (example.snapshotsOn 0)) !! "a" = None
  /\ snc.stored (snc.details (example.snapshotsOn 0)) !! "b"
     = Some (mkStats [example.firstSnapshot; example.secondSnapshot])
  /\ (sn.Collect (example.snapshotsOn 0)).2.2 = Some tt
  /\ gaugeValue (sn.up (sn.Collect (example.snapshotsOn 0)).1) = float64_of_int 1.
Proof.
  assert (Hc : snc.constructed (example.snapshotsOn 0)) by (split; reflexivity).
  assert (Hd : (snc.discovery (example.snapshotsOn 0)).2 = inr example.repositories)
    by (vm_compute; reflexivity).
  assert (Hdet : snc.details (example.snapshotsOn 0)
                 = [("c", inr (mkStats []));
                    ("a", inl (StatusError 500));
                    ("b", inr (mkStats [example.firstSnapshot; example.secondSnapshot]));
                    ("d", inl (DecodeError "invalid character"))])
    by (vm_compute; reflexivity).
  destruct (C5_failed_entity_left_out (example.snapshotsOn 0) example.repositories Hc Hd)
    as (_ & _ & Hfail & Hok & Hret & Hup & _).
  split; [exact Hc |]. split; [exact Hd |].
  split.
  { apply (Hfail "a" (StatusError 500)). rewrite Hdet.
    apply list_elem_of_further, list_elem_of_here. }
  split.
  { apply (Hok "b"). rewrite Hdet.
    do 2 apply list_elem_of_further. apply list_elem_of_here. }
  split; [exact Hret | exact Hup].
Defined.

(** ** More about the two collectors *)

Module snapshots_more.
Import snapshots snapshots_cycle.

Section facts.
Context {rt : Runtime}.

Ltac fetch_cases decode s u :=
  unfold getAndParseURL;
  destruct (http_Get u (client s)) as [[res | cause] w]; simpl;
  [ destruct (StatusCode res =? StatusOK) eqn:Hcode; simpl;
    [ destruct (decode (Body res)) as [derr | data] eqn:Hdec; simpl | ];
    unfold closeBody; destruct (CloseErr res); simpl
  | ].

Lemma fetch_client {A : Type} (decode : string -> string + A) s u :
  client (getAndParseURL decode s u).1 = (http_Get u (client s)).2.
Proof. fetch_cases decode s u; reflexivity. Qed.

Lemma fetch_logger {A : Type} (decode : string -> string + A) s u :
  logger (getAndParseURL decode s u).1
  = logger s ++ closeWarnings (http_Get u (client s)).1.
Proof. fetch_cases decode s u; by rewrite ?app_nil_r. Qed.

Lemma fetch_ok_counter {A : Type} (decode : string -> string + A) s u :
  isOk (getAndParseURL decode s u).2 = true ->
  jsonParseFailures (getAndParseURL decode s u).1 = jsonParseFailures s.
Proof. fetch_cases decode s u; done. Qed.

(** A fetch fails in the decoder exactly on an answer that is a decode
    failure, and hands back the value exactly of an answer that holds one. *)
Lemma fetch_refused {A : Type} (decode : string -> string + A) s u :
  parseFailed (getAndParseURL decode s u).2 = refused decode (http_Get u (client s)).1.
Proof. fetch_cases decode s u; reflexivity. Qed.

Lemma fetch_decoded {A : Type} (decode : string -> string + A) s u :
  decoded decode (http_Get u (client s)).1
  = match (getAndParseURL decode s u).2 with inr data => Some data | inl _ => None end.
Proof. fetch_cases decode s u; reflexivity. Qed.

Lemma fetch_counter_refused {A : Type} (decode : string -> string + A) s u :
  counterValue (jsonParseFailures (getAndParseURL decode s u).1)
  = (counterValue (jsonParseFailures s)
     + (if refused decode (http_Get u (client s)).1 then 1 else 0))%N.
Proof. fetch_cases decode s u; lia. Qed.

Lemma Collect_totalScrapes s :
  totalScrapes (Collect s).1 = Counter_Inc (totalScrapes s).
Proof.
  pose proof (snapshots_facts.discovery_frame s) as (_ & _ & Ht & _).
  destruct (discovery s) as [s1 [err | srr]] eqn:H; simpl in Ht.
  - by rewrite (snapshots_facts.Collect_failed s s1 err H).
  - rewrite (snapshots_facts.Collect_ok s s1 srr H). simpl.
    by destruct (snapshots_facts.afterDetails_frame s1 (map_range srr).*1)
      as (_ & _ & -> & _).
Qed.

(** Collect leaves the descriptors and the tables as they are. *)
Lemma Collect_descriptors s :
  let s' := (Collect s).1 in
  url s' = url s
  /\ gaugeDesc (up s') = gaugeDesc (up s)
  /\ counterDesc (totalScrapes s') = counterDesc (totalScrapes s)
  /\ counterDesc (jsonParseFailures s') = counterDesc (jsonParseFailures s)
  /\ snapshotMetrics s' = snapshotMetrics s
  /\ repositoryMetrics s' = repositoryMetrics s.
Proof.
  simpl. rewrite Collect_totalScrapes.
  pose proof (snapshots_facts.discovery_frame s) as (Hu & Hup & _ & Hsm & Hrm & Hj).
  destruct (discovery s) as [s1 [err | srr]] eqn:H; simpl in *.
  - rewrite (snapshots_facts.Collect_failed s s1 err H). simpl.
    rewrite Hu, Hup, Hsm, Hrm, Hj. done.
  - rewrite (snapshots_facts.Collect_ok s s1 srr H). simpl.
    destruct (snapshots_facts.afterDetails_frame s1 (map_range srr).*1)
      as (-> & -> & _ & -> & -> & ->).
    rewrite Hu, Hup, Hsm, Hrm, Hj. done.
Qed.

End facts.
End snapshots_more.

Module indices_settings_more.
Import indices_settings indices_settings_cycle.

Section facts.
Context {rt : Runtime}.

Ltac fetch_cases decode cs u :=
  unfold getAndParseURL;
  destruct (http_Get u (client cs)) as [[res | cause] w]; simpl;
  [ destruct (StatusCode res =? StatusOK) eqn:Hcode; simpl;
    [ destruct (decode (Body res)) as [derr | data] eqn:Hdec; simpl | ];
    unfold closeBody; destruct (CloseErr res); simpl
  | ].

Lemma settings_fetch_client {A : Type} (decode : string -> string + A) cs u :
  client (getAndParseURL decode cs u).1 = (http_Get u (client cs)).2.
Proof. fetch_cases decode cs u; reflexivity. Qed.

Lemma settings_fetch_logger {A : Type} (decode : string -> string + A) cs u :
  logger (getAndParseURL decode cs u).1
  = logger cs ++ closeWarnings (http_Get u (client cs)).1.
Proof. fetch_cases decode cs u; by rewrite ?app_nil_r. Qed.

Lemma settings_fetch_ok_counter {A : Type} (decode : string -> string + A) cs u :
  isOk (getAndParseURL decode cs u).2 = true ->
  jsonParseFailures (getAndParseURL decode cs u).1 = jsonParseFailures cs.
Proof. fetch_cases decode cs u; done. Qed.

Lemma settings_fetch_counter_desc {A : Type} (decode : string -> string + A) cs u :
  cvDesc (jsonParseFailures (getAndParseURL decode cs u).1) = cvDesc (jsonParseFailures cs).
Proof. fetch_cases decode cs u; reflexivity. Qed.

(** A fetch writes no child of the parse-failure counter but the one of the
    collector. *)
Lemma settings_fetch_counter_others {A : Type} (decode : string -> string + A) cs u lv :
  lv <> label cs ->
  cvChildren (jsonParseFailures (getAndParseURL decode cs u).1) !! lv
  = cvChildren (jsonParseFailures cs) !! lv.
Proof.
  intros Hne. unfold label in Hne.
  fetch_cases decode cs u; rewrite ?lookup_insert_ne by done; reflexivity.
Qed.

Lemma settings_fetch_refused {A : Type} (decode : string -> string + A) cs u :
  parseFailed (getAndParseURL decode cs u).2 = refused decode (http_Get u (client cs)).1.
Proof. fetch_cases decode cs u; reflexivity. Qed.

Lemma settings_fetch_counter_refused {A : Type} (decode : string -> string + A) cs u :
  CounterVec_value (label cs) (jsonParseFailures (getAndParseURL decode cs u).1)
  = (CounterVec_value (label cs) (jsonParseFailures cs)
     + (if refused decode (http_Get u (client cs)).1 then 1 else 0))%N.
Proof.
  unfold label. fetch_cases decode cs u;
    rewrite ?indices_settings_facts.CounterVec_value_Inc; lia.
Qed.

Lemma settings_Collect_totalScrapes cs :
  totalScrapes (Collect cs).1 = CounterVec_Inc (label cs) (totalScrapes cs).
Proof.
  pose proof (indices_settings_facts.settings_discovery_frame cs) as (_ & _ & _ & Ht).
  destruct (discovery cs) as [cs1 [err | asr]] eqn:H; simpl in Ht.
  - by rewrite (indices_settings_facts.settings_Collect_failed cs cs1 err H).
  - by rewrite (indices_settings_facts.settings_Collect_ok_state cs cs1 asr H).
Qed.

Lemma settings_Collect_label cs : label (Collect cs).1 = label cs.
Proof. unfold label. by rewrite indices_settings_facts.settings_Collect_url. Qed.

End facts.
End indices_settings_more.

Module snm := snapshots_more.
Module ixm := indices_settings_more.

(** X1: every call of Collect adds one to totalScrapes, whatever the cycle
    meets: after n calls the counter is n higher, in both collectors. *)
Theorem X1_totalScrapes_counts_cycles `{rt : Runtime} :
  (forall (n : nat) (s : sn.Snapshots),
      counterValue (sn.totalScrapes (snc.repeatCollect n s))
      = (counterValue (sn.totalScrapes s) + N.of_nat n)%N)
  /\ (forall (n : nat) (cs : ix.IndicesSettings),
      CounterVec_value (ixc.label cs) (ix.totalScrapes (ixc.repeatCollect n cs))
      = (CounterVec_value (ixc.label cs) (ix.totalScrapes cs) + N.of_nat n)%N).
Proof.
  split.
  - intros n. induction n as [| n IH]; intros s; simpl; [lia |].
    rewrite IH, snm.Collect_totalScrapes. simpl. lia.
  - intros n. induction n as [| n IH]; intros cs; simpl; [lia |].
    pose proof (IH (ix.Collect cs).1) as IH'.
    rewrite ixm.settings_Collect_label in IH'. rewrite IH'.
    rewrite ixm.settings_Collect_totalScrapes, ixf.CounterVec_value_Inc. lia.
Qed.

Lemma GaugeVec_With_idempotent (lv : string) (v : GaugeVec) :
  GaugeVec_With lv (GaugeVec_With lv v) = GaugeVec_With lv v.
Proof.
  unfold GaugeVec_With. destruct (gvChildren v !! lv) eqn:E; simpl.
  - by rewrite E.
  - by rewrite lookup_insert_eq.
Qed.

Lemma CounterVec_With_idempotent (lv : string) (v : CounterVec) :
  CounterVec_With lv (CounterVec_With lv v) = CounterVec_With lv v.
Proof.
  unfold CounterVec_With. destruct (cvChildren v !! lv) eqn:E; simpl.
  - by rewrite E.
  - by rewrite lookup_insert_eq.
Qed.

Lemma GaugeVec_With_lookup (lv lv' : string) (v : GaugeVec) :
  gvChildren (GaugeVec_With lv v) !! lv'
  = match gvChildren v !! lv' with
    | Some x => Some x
    | None => if decide (lv' = lv) then Some (float64_of_int 0) else None
    end.
Proof.
  unfold GaugeVec_With. destruct (gvChildren v !! lv) eqn:E; simpl.
  - destruct (gvChildren v !! lv') eqn:E'; [done |].
    case_decide; [congruence | done].
  - rewrite lookup_insert. case_decide as Hd.
    + subst lv'. rewrite E. by rewrite decide_True.
    + destruct (gvChildren v !! lv'); [done |]. by rewrite decide_False.
Qed.

Lemma CounterVec_With_value (lv lv' : string) (v : CounterVec) :
  CounterVec_value lv' (CounterVec_With lv v) = CounterVec_value lv' v.
Proof.
  unfold CounterVec_value, CounterVec_With. destruct (cvChildren v !! lv) eqn:E; simpl.
  - done.
  - rewrite lookup_insert. case_decide as Hd; [| done]. subst lv'. by rewrite E.
Qed.

Lemma CounterVec_With_lookup (lv lv' : string) (v : CounterVec) :
  cvChildren (CounterVec_With lv v) !! lv'
  = match cvChildren v !! lv' with
    | Some x => Some x
    | None => if decide (lv' = lv) then Some 0%N else None
    end.
Proof.
  unfold CounterVec_With. destruct (cvChildren v !! lv) eqn:E; simpl.
  - destruct (cvChildren v !! lv') eqn:E'; [done |].
    case_decide; [congruence | done].
  - rewrite lookup_insert. case_decide as Hd.
    + subst lv'. rewrite E. by rewrite decide_True.
    + destruct (cvChildren v !! lv'); [done |]. by rewrite decide_False.
Qed.

(** X2: Describe of the indices-settings collector makes no request and logs
    nothing; in each of the four vectors, the two gauges and the two
    counters, it creates with value 0 the child for the URL of the collector
    when it is not there yet and leaves every other child and every counter
    reading as it was; it sends the descriptors of the four vectors, and a
    second Describe changes nothing and sends the same four. *)
Theorem X2_IndicesSettings_Describe_idempotent `{rt : Runtime} (cs : ix.IndicesSettings) :
  ix.Describe (ix.Describe cs).1 = ix.Describe cs
  /\ ix.client (ix.Describe cs).1 = ix.client cs
  /\ ix.logger (ix.Describe cs).1 = ix.logger cs
  /\ (forall lv,
        CounterVec_value lv (ix.totalScrapes (ix.Describe cs).1)
        = CounterVec_value lv (ix.totalScrapes cs)
        /\ CounterVec_value lv (ix.jsonParseFailures (ix.Describe cs).1)
           = CounterVec_value lv (ix.jsonParseFailures cs))
  /\ (forall lv,
        gvChildren (ix.up (ix.Describe cs).1) !! lv
        = match gvChildren (ix.up cs) !! lv with
          | Some x => Some x
          | None => if decide (lv = ixc.label cs) then Some (float64_of_int 0) else None
          end)
  /\ (forall lv,
        gvChildren (ix.readOnlyIndices (ix.Describe cs).1) !! lv
        = match gvChildren (ix.readOnlyIndices cs) !! lv with
          | Some x => Some x
          | None => if decide (lv = ixc.label cs) then Some (float64_of_int 0) else None
          end)
  /\ (forall lv,
        cvChildren (ix.totalScrapes (ix.Describe cs).1) !! lv
        = match cvChildren (ix.totalScrapes cs) !! lv with
          | Some x => Some x
          | None => if decide (lv = ixc.label cs) then Some 0%N else None
          end)
  /\ (forall lv,
        cvChildren (ix.jsonParseFailures (ix.Describe cs).1) !! lv
        = match cvChildren (ix.jsonParseFailures cs) !! lv with
          | Some x => Some x
          | None => if decide (lv = ixc.label cs) then Some 0%N else None
          end)
  /\ (ix.Describe cs).2
     = [gvDesc (ix.up cs); cvDesc (ix.totalScrapes cs); gvDesc (ix.readOnlyIndices cs);
        cvDesc (ix.jsonParseFailures cs)].
Proof.
  pose proof (IndicesSettings_Describe cs) as Hdescs.
  destruct cs as [lg cl u g ro ts jpf]. unfold ix.Describe, ixc.label in *. simpl in *.
  repeat apply conj; try reflexivity.
  - rewrite !GaugeVec_With_idempotent, !CounterVec_With_idempotent.
    unfold GaugeVec_With, CounterVec_With.
    repeat match goal with |- context [match ?x with Some _ => _ | None => _ end] =>
      destruct x end; reflexivity.
  - intros lv. by rewrite !CounterVec_With_value.
  - intros lv. apply GaugeVec_With_lookup.
  - intros lv. apply GaugeVec_With_lookup.
  - intros lv. apply CounterVec_With_lookup.
  - intros lv. apply CounterVec_With_lookup.
  - exact Hdescs.
Qed.

Lemma IndicesSettings_Collect_descriptors `{rt : Runtime} (cs : ix.IndicesSettings) :
  gvDesc (ix.up (ix.Collect cs).1) = gvDesc (ix.up cs)
  /\ cvDesc (ix.totalScrapes (ix.Collect cs).1) = cvDesc (ix.totalScrapes cs)
  /\ gvDesc (ix.readOnlyIndices (ix.Collect cs).1) = gvDesc (ix.readOnlyIndices cs)
  /\ cvDesc (ix.jsonParseFailures (ix.Collect cs).1) = cvDesc (ix.jsonParseFailures cs).
Proof.
  rewrite ixm.settings_Collect_totalScrapes, ixf.settings_Collect_jsonParseFailures.
  pose proof (ixf.settings_discovery_frame cs) as (_ & Hup & Hro & _).
  pose proof (ixm.settings_fetch_counter_desc decodeIndicesSettings (ixc.started cs)
                (ix.settingsURL (ixc.started cs))) as Hj.
  change (ix.getAndParseURL decodeIndicesSettings (ixc.started cs)
            (ix.settingsURL (ixc.started cs))) with (ixc.discovery cs) in Hj.
  destruct (ixc.discovery cs) as [cs1 [err | asr]] eqn:H; simpl in *.
  - rewrite (ixf.settings_Collect_failed cs cs1 err H). simpl. by rewrite Hup, Hro.
  - rewrite (ixf.settings_Collect_ok_state cs cs1 asr H). simpl. by rewrite Hup, Hro.
Qed.

(** X3: the descriptors a collector describes are fixed: after any number
    of Collect calls Describe sends what it sent before them, in both
    collectors. *)
Theorem X3_Describe_unchanged_by_Collect `{rt : Runtime} :
  (forall (n : nat) (s : sn.Snapshots),
      sn.Describe (snc.repeatCollect n s) = sn.Describe s)
  /\ (forall (n : nat) (cs : ix.IndicesSettings),
      (ix.Describe (ixc.repeatCollect n cs)).2 = (ix.Describe cs).2).
Proof.
  split.
  - intros n. induction n as [| n IH]; intros s; simpl; [done |].
    rewrite IH. unfold sn.Describe.
    destruct (snm.Collect_descriptors s) as (_ & -> & -> & -> & -> & _). done.
  - intros n. induction n as [| n IH]; intros cs; [done |].
    change (ixc.repeatCollect (S n) cs) with (ixc.repeatCollect n (ix.Collect cs).1).
    rewrite IH, !IndicesSettings_Describe.
    destruct (IndicesSettings_Collect_descriptors cs) as (-> & -> & -> & ->). done.
Qed.

(** What one turn of the loop of Collect sends is made of constant metrics,
    whatever the tables are and whether or not the turn panics. *)
Lemma for_each_sends {M A : Type} (P : M -> Prop) (l : list A) (body : A -> Emit M unit) :
  (forall x, Forall P (body x).1) -> Forall P (for_each l body).1.
Proof.
  intros Hb. induction l as [| x l IH]; simpl; [constructor |].
  pose proof (Hb x) as Hx. destruct (body x) as [sent [[] |]]; simpl in *; [| done].
  destruct (for_each l body) as [sent' r]. simpl in *. by apply Forall_app.
Qed.

Lemma collectRepository_sends_constants `{rt : Runtime} (s : sn.Snapshots) name p :
  Forall (fun m => exists c, m = sn.Const c) (sn.collectRepository s name p).1.
Proof.
  unfold sn.collectRepository.
  assert (H1 : Forall (fun m => exists c, m = sn.Const c)
                 (for_each (sn.repositoryMetrics s) (fun metric =>
                    v <~ lift (sn.rm_Value metric p) ;;
                    m <~ lift (MustNewConstMetric (sn.rm_Desc metric) (sn.rm_Type metric) v
                                 (sn.rm_Labels metric name)) ;;
                    send (sn.Const m))).1).
  { apply for_each_sends. intros metric.
    destruct (sn.rm_Value metric p) as [v |]; simpl; [| constructor].
    destruct (MustNewConstMetric _ _ _ _) as [m |]; simpl; repeat constructor; eauto. }
  destruct (for_each (sn.repositoryMetrics s) _) as [sent1 [[] |]]; simpl in *; [| done].
  destruct (len (ssr_Snapshots p) =? 0); simpl; [by rewrite app_nil_r |].
  destruct (index _ _) as [lastSnapshot |]; simpl; [| by rewrite app_nil_r].
  match goal with |- context [for_each ?l ?b] =>
    assert (H2 : Forall (fun m => exists c, m = sn.Const c) (for_each l b).1) end.
  { apply for_each_sends. intros metric.
    destruct (sn.sm_Value metric lastSnapshot) as [v |]; simpl; [| constructor].
    destruct (MustNewConstMetric _ _ _ _) as [m |]; simpl; repeat constructor; eauto. }
  destruct (for_each (sn.snapshotMetrics s) _) as [sent2 r2]. simpl in *.
  by apply Forall_app.
Qed.

(** X4: whatever the tables of the collector hold, and also when a value
    function or the construction of a metric panics half way, the last
    three things Collect sends are its own up, totalScrapes and
    jsonParseFailures, in this order, and everything before them is a
    constant metric. *)
Theorem X4_own_metrics_sent_last `{rt : Runtime} (s : sn.Snapshots) :
  exists data,
    (sn.Collect s).2.1
    = data ++ [sn.GaugeUp; sn.CounterTotalScrapes; sn.CounterJsonParseFailures]
    /\ Forall (fun m => exists c, m = sn.Const c) data.
Proof.
  destruct (snc.discovery s) as [s1 [err | srr]] eqn:H.
  - rewrite (snf.Collect_failed s s1 err H). exists []. by split.
  - rewrite (snf.Collect_ok s s1 srr H). simpl.
    match goal with |- context [for_each ?l ?b] =>
      assert (Hf : Forall (fun m => exists c, m = sn.Const c) (for_each l b).1) end.
    { apply for_each_sends. intros [name p]. apply collectRepository_sends_constants. }
    destruct (for_each _ _) as [sent r]. simpl in *. by exists sent.
Qed.

Lemma sample_well_formed `{rt : Runtime} (s : sn.Snapshots) kp c :
  snc.constructed s ->
  sn.Const c ∈ snc.samplesOf s kp ->
  length (cm_labelValues c) = length (variableLabels (cm_desc c))
  /\ (cm_desc c ∈ sn.rm_Desc <$> sn.repositoryMetrics s
      \/ cm_desc c ∈ sn.sm_Desc <$> sn.snapshotMetrics s).
Proof.
  intros Hc Hm. unfold snc.samplesOf in Hm.
  destruct (snf.collectRepository_spec s kp.1 kp.2 Hc) as (sent1 & sent2 & E & F1 & F2).
  rewrite E in Hm. simpl in Hm. destruct Hc as [Hs Hr].
  apply elem_of_app in Hm as [Hm | Hm].
  - apply list_elem_of_lookup in Hm as [i Hi].
    destruct (Forall2_lookup_r _ _ _ _ _ F1 Hi) as (metric & Hmetric & v & _ & [= ->]).
    simpl. split.
    + pose proof (snf.newRepositoryMetrics_wf (constLabelsFromURL (sn.url s))) as Hwf.
      rewrite <- Hr in Hwf.
      destruct (proj1 (Forall_lookup _ _) Hwf i metric Hmetric) as (_ & _ & ->). done.
    + left. apply list_elem_of_fmap. exists metric. split; [done |].
      by eapply list_elem_of_lookup_2.
  - destruct (last (ssr_Snapshots kp.2)) as [r |]; [| subst sent2; by apply elem_of_nil in Hm].
    apply list_elem_of_lookup in Hm as [i Hi].
    destruct (Forall2_lookup_r _ _ _ _ _ F2 Hi) as (metric & Hmetric & v & _ & [= ->]).
    simpl. split.
    + pose proof (snf.newSnapshotMetrics_wf (constLabelsFromURL (sn.url s))) as Hwf.
      rewrite <- Hs in Hwf.
      destruct (proj1 (Forall_lookup _ _) Hwf i metric Hmetric) as (_ & _ & ->). done.
    + right. apply list_elem_of_fmap. exists metric. split; [done |].
      by eapply list_elem_of_lookup_2.
Qed.

(** X5: Collect of a collector with the tables of NewSnapshots never
    panics, whatever the cluster answers; every data sample it sends has as
    many label values as its descriptor has variable labels, and its
    descriptor is one of the two tables. *)
Theorem X5_Collect_never_panics `{rt : Runtime} (s : sn.Snapshots) :
  snc.constructed s ->
  (sn.Collect s).2.2 = Some tt
  /\ Forall (fun c =>
               length (cm_labelValues c) = length (variableLabels (cm_desc c))
               /\ (cm_desc c ∈ sn.rm_Desc <$> sn.repositoryMetrics s
                   \/ cm_desc c ∈ sn.sm_Desc <$> sn.snapshotMetrics s))
            (snc.dataSamples (sn.Collect s).2.1).
Proof.
  intros Hc. destruct (snc.discovery s) as [s1 [err | srr]] eqn:H.
  - rewrite (snf.Collect_failed s s1 err H). simpl. split; [done | constructor].
  - split; [by rewrite (snf.Collect_ok_sent s s1 srr Hc H) |].
    apply Forall_forall. intros c Hin.
    destruct (snf.data_sample_origin s s1 srr c Hc H Hin) as (name & p & _ & Hm & _).
    by eapply sample_well_formed.
Qed.

Lemma X5_Collect_never_panics_witness :
  snc.constructed (example.snapshotsOn 0)
  /\ (sn.Collect (example.snapshotsOn 0)).2.2 = Some tt
  /\ snc.constructed (example.snapshotsOn 2)
  /\ (sn.Collect (example.snapshotsOn 2)).2.2 = Some tt.
Proof.
  assert (H0 : snc.constructed (example.snapshotsOn 0)) by (split; reflexivity).
  assert (H2 : snc.constructed (example.snapshotsOn 2)) by (split; reflexivity).
  split; [exact H0 |].
  split; [exact (proj1 (X5_Collect_never_panics (example.snapshotsOn 0) H0)) |].
  split; [exact H2 |].
  exact (proj1 (X5_Collect_never_panics (example.snapshotsOn 2) H2)).
Defined.

(** A table that makes the construction of a metric panic: Collect panics
    in the first turn of its loop and its own three metrics are sent all the
    same. *)
Example own_metrics_sent_when_Collect_panics :
  (sn.Collect broken.collector).2
  = ([sn.GaugeUp; sn.CounterTotalScrapes; sn.CounterJsonParseFailures], None).
Proof. vm_compute. reflexivity. Qed.

(** A [range] over the empty map visits nothing. *)
Lemma map_range_empty `{rt : Runtime} {V : Type} : map_range (∅ : gmap string V) = [].
Proof.
  apply Permutation_nil_r. rewrite map_range_perm. by rewrite map_to_list_empty.
Qed.

(** X6: when discovery succeeds and lists no repository, Collect makes no
    further request, sets up to 1 and sends its own three metrics and
    nothing else; the parse-failure counter stays as it was. *)
Theorem X6_no_repositories `{rt : Runtime} (s : sn.Snapshots) :
  (snc.discovery s).2 = inr ∅ ->
  (sn.Collect s).2
  = ([sn.GaugeUp; sn.CounterTotalScrapes; sn.CounterJsonParseFailures], Some tt)
  /\ gaugeValue (sn.up (sn.Collect s).1) = float64_of_int 1
  /\ sn.client (sn.Collect s).1 = (http_Get (sn.repositoriesURL s) (sn.client s)).2
  /\ sn.jsonParseFailures (sn.Collect s).1 = sn.jsonParseFailures s.
Proof.
  intros Hd. destruct (snc.discovery s) as [s1 r] eqn:H. simpl in Hd. subst r.
  pose proof (snm.fetch_client decodeRepositories (snc.started s)
                (sn.repositoriesURL (snc.started s))) as Hcl.
  pose proof (snm.fetch_ok_counter decodeRepositories (snc.started s)
                (sn.repositoriesURL (snc.started s))) as Hj.
  change (sn.getAndParseURL decodeRepositories (snc.started s)
            (sn.repositoriesURL (snc.started s))) with (snc.discovery s) in Hcl, Hj.
  rewrite H in Hcl, Hj. simpl in Hcl, Hj.
  rewrite (snf.Collect_ok s s1 ∅ H), (snf.details_ok s s1 ∅ H).
  rewrite map_range_empty. simpl. unfold snc.stored. simpl. rewrite map_range_empty. simpl.
  repeat split; [exact Hcl | by apply Hj].
Qed.

Lemma X6_no_repositories_witness :
  (snc.discovery empty_cluster.snapshotsCollector).2 = inr ∅
  /\ (sn.Collect empty_cluster.snapshotsCollector).2
     = ([sn.GaugeUp; sn.CounterTotalScrapes; sn.CounterJsonParseFailures], Some tt).
Proof.
  assert (Hd : (snc.discovery empty_cluster.snapshotsCollector).2 = inr ∅)
    by (vm_compute; reflexivity).
  split; [exact Hd |].
  exact (proj1 (X6_no_repositories empty_cluster.snapshotsCollector Hd)).
Defined.

(** X7: when the discovery fetch fails, Collect logs one warning that
    carries the error of that fetch, after the line of the body that did not
    close if there is one, and nothing else, in both collectors. *)
Theorem X7_discovery_failure_logged `{rt : Runtime} :
  (forall (s : sn.Snapshots) (err : error),
      (snc.discovery s).2 = inl err ->
      sn.logger (sn.Collect s).1
      = sn.logger s
        ++ closeWarnings (http_Get (sn.repositoriesURL s) (sn.client s)).1
        ++ [Warn "failed to fetch and decode snapshot stats" err])
  /\ (forall (cs : ix.IndicesSettings) (err : error),
      (ixc.discovery cs).2 = inl err ->
      ix.logger (ix.Collect cs).1
      = ix.logger cs
        ++ closeWarnings (http_Get (ix.settingsURL cs) (ix.client cs)).1
        ++ [Warn "failed to fetch and decode cluster settings stats" err]).
Proof.
  split.
  - intros s err Hd. destruct (snc.discovery s) as [s1 r] eqn:H. simpl in Hd. subst r.
    pose proof (snm.fetch_logger decodeRepositories (snc.started s)
                  (sn.repositoriesURL (snc.started s))) as Hl.
    change (sn.getAndParseURL decodeRepositories (snc.started s)
              (sn.repositoriesURL (snc.started s))) with (snc.discovery s) in Hl.
    rewrite H in Hl. simpl in Hl.
    rewrite (snf.Collect_failed s s1 err H). simpl. rewrite Hl. by rewrite <- app_assoc.
  - intros cs err Hd. destruct (ixc.discovery cs) as [cs1 r] eqn:H. simpl in Hd. subst r.
    pose proof (ixm.settings_fetch_logger decodeIndicesSettings (ixc.started cs)
                  (ix.settingsURL (ixc.started cs))) as Hl.
    change (ix.getAndParseURL decodeIndicesSettings (ixc.started cs)
              (ix.settingsURL (ixc.started cs))) with (ixc.discovery cs) in Hl.
    rewrite H in Hl. simpl in Hl.
    rewrite (ixf.settings_Collect_failed cs cs1 err H). simpl. rewrite Hl.
    by rewrite <- app_assoc.
Qed.

Lemma X7_discovery_failure_logged_witness :
  (snc.discovery (example.snapshotsOn 1)).2 = inl (StatusError 500)
  /\ sn.logger (sn.Collect (example.snapshotsOn 1)).1
     = [Warn "failed to fetch and decode snapshot stats" (StatusError 500)]
  /\ (ixc.discovery (example.settingsOn 2)).2 = inl (DecodeError "invalid character")
  /\ ix.logger (ix.Collect (example.settingsOn 2)).1
     = [Warn "failed to fetch and decode cluster settings stats"
          (DecodeError "invalid character")].
Proof.
  destruct (@X7_discovery_failure_logged example.cluster) as [Hs Hcs].
  assert (H1 : (snc.discovery (example.snapshotsOn 1)).2 = inl (StatusError 500))
    by (vm_compute; reflexivity).
  assert (H2 : (ixc.discovery (example.settingsOn 2)).2
               = inl (DecodeError "invalid character"))
    by (vm_compute; reflexivity).
  split; [exact H1 |]. split; [rewrite (Hs _ _ H1); reflexivity |].
  split; [exact H2 |]. rewrite (Hcs _ _ H2). reflexivity.
Defined.

Lemma countReadOnly_foldl (l : list Index) (c0 : Z) :
  foldl (fun c value =>
           if String.eqb (ReadOnly (Blocks (IndexInfo (Settings value)))) "true"
           then c + 1 else c) c0 l
  = c0 + Z.of_nat (length (filter isReadOnly l)).
Proof.
  revert c0. induction l as [| v l IH]; intros c0; simpl; [lia |].
  rewrite IH. destruct (String.eqb_spec (ReadOnly (Blocks (IndexInfo (Settings v)))) "true")
    as [Heq | Hne].
  - rewrite filter_cons_True by done. simpl. lia.
  - rewrite filter_cons_False by done. lia.
Qed.

Lemma countReadOnly_count `{rt : Runtime} (asr : IndicesSettingsResponse) :
  ix.countReadOnly asr = Z.of_nat (length (filter isReadOnly (map_to_list asr).*2)).
Proof.
  unfold ix.countReadOnly. rewrite countReadOnly_foldl. simpl.
  by rewrite (map_range_perm _ asr).
Qed.

(** X8: after a cycle whose settings fetch succeeds, the gauge
    readOnlyIndices for the URL of the collector is the number of indices of
    the answer whose read-only setting is the string "true", in whatever
    order the loop visits them; any other value of the setting does not
    count. *)
Theorem X8_readOnlyIndices_counts `{rt : Runtime} (cs : ix.IndicesSettings)
    (asr : IndicesSettingsResponse) :
  (ixc.discovery cs).2 = inr asr ->
  GaugeVec_value (ixc.label cs) (ix.readOnlyIndices (ix.Collect cs).1)
  = Some (float64_of_int (Z.of_nat (length (filter isReadOnly (map_to_list asr).*2)))).
Proof.
  intros Hd. destruct (ixc.discovery cs) as [cs1 r] eqn:H. simpl in Hd. subst r.
  rewrite (ixf.settings_Collect_ok_state cs cs1 asr H). simpl.
  by rewrite ixf.GaugeVec_value_Set, countReadOnly_count.
Qed.

Lemma X8_readOnlyIndices_counts_witness :
  (ixc.discovery (example.settingsOn 0)).2 = inr example.settings
  /\ size example.settings = 2%nat
  /\ GaugeVec_value (ixc.label (example.settingsOn 0))
       (ix.readOnlyIndices (ix.Collect (example.settingsOn 0)).1)
     = Some (float64_of_int 1).
Proof.
  assert (Hd : (ixc.discovery (example.settingsOn 0)).2 = inr example.settings)
    by (vm_compute; reflexivity).
  split; [exact Hd |]. split; [vm_compute; reflexivity |].
  rewrite (X8_readOnlyIndices_counts (example.settingsOn 0) example.settings Hd).
  vm_compute. reflexivity.
Defined.

Lemma elem_of_GaugeVec_Collect `{rt : Runtime} (child : string -> ix.Metric)
    (v : GaugeVec) (m : ix.Metric) :
  m ∈ ix.GaugeVec_Collect child v
  <-> exists lv, m = child lv /\ is_Some (gvChildren v !! lv).
Proof.
  unfold ix.GaugeVec_Collect.
  change (map (fun kv => child kv.1) (map_range (gvChildren v)))
    with ((fun kv : string * float64 => child kv.1) <$> map_range (gvChildren v)).
  rewrite list_elem_of_fmap. split.
  - intros ([lv x] & -> & Hin). exists lv. split; [done |].
    apply elem_of_dom, snf.range_keys_dom, list_elem_of_fmap. by exists (lv, x).
  - intros (lv & -> & Hs). apply elem_of_dom, snf.range_keys_dom, list_elem_of_fmap in Hs.
    destruct Hs as ([lv' x] & Heq & Hin). simpl in Heq. subst lv'. by exists (lv, x).
Qed.

Lemma elem_of_CounterVec_Collect `{rt : Runtime} (child : string -> ix.Metric)
    (v : CounterVec) (m : ix.Metric) :
  m ∈ ix.CounterVec_Collect child v
  <-> exists lv, m = child lv /\ is_Some (cvChildren v !! lv).
Proof.
  unfold ix.CounterVec_Collect.
  change (map (fun kv => child kv.1) (map_range (cvChildren v)))
    with ((fun kv : string * N => child kv.1) <$> map_range (cvChildren v)).
  rewrite list_elem_of_fmap. split.
  - intros ([lv x] & -> & Hin). exists lv. split; [done |].
    apply elem_of_dom, snf.range_keys_dom, list_elem_of_fmap. by exists (lv, x).
  - intros (lv & -> & Hs). apply elem_of_dom, snf.range_keys_dom, list_elem_of_fmap in Hs.
    destruct Hs as ([lv' x] & Heq & Hin). simpl in Heq. subst lv'. by exists (lv, x).
Qed.

Lemma IndicesSettings_Collect_ok_sent `{rt : Runtime} (cs cs1 : ix.IndicesSettings) asr :
  ixc.discovery cs = (cs1, inr asr) ->
  (ix.Collect cs).2
  = ix.GaugeVec_Collect ix.UpChild
      (GaugeVec_Set (ixc.label cs) (float64_of_int 1) (ix.up cs))
    ++ ix.CounterVec_Collect ix.TotalScrapesChild
         (CounterVec_Inc (ixc.label cs) (ix.totalScrapes cs))
    ++ ix.CounterVec_Collect ix.JsonParseFailuresChild (ix.jsonParseFailures cs)
    ++ ix.GaugeVec_Collect ix.ReadOnlyIndicesChild
         (GaugeVec_Set (ixc.label cs) (float64_of_int (ix.countReadOnly asr))
            (ix.readOnlyIndices cs)).
Proof.
  intros H.
  pose proof (ixf.settings_discovery_frame cs) as (_ & Hup & Hro & Ht).
  pose proof (ixm.settings_fetch_ok_counter decodeIndicesSettings (ixc.started cs)
                (ix.settingsURL (ixc.started cs))) as Hj.
  change (ix.getAndParseURL decodeIndicesSettings (ixc.started cs)
            (ix.settingsURL (ixc.started cs))) with (ixc.discovery cs) in Hj.
  rewrite H in Hup, Hro, Ht, Hj. simpl in Hup, Hro, Ht, Hj.
  specialize (Hj eq_refl). change (ix.jsonParseFailures (ixc.started cs))
    with (ix.jsonParseFailures cs) in Hj.
  unfold ix.Collect, ix.fetchAndDecodeIndicesSettings.
  change (ix.set_totalScrapes _ cs) with (ixc.started cs).
  change (ix.getAndParseURL decodeIndicesSettings (ixc.started cs)
            (ix.settingsURL (ixc.started cs))) with (ixc.discovery cs).
  rewrite H. simpl. by rewrite Hup, Hro, Ht, Hj.
Qed.

(** X9: after a settings fetch that succeeded, Collect sends the children
    of its four vectors that exist: those of up, total_scrapes and
    read_only_indices for the URL of the collector always, and one of
    json_parse_failures only if it was there before the cycle, that is after
    an earlier decode failure or an earlier Describe. *)
Theorem X9_IndicesSettings_sends_existing_children `{rt : Runtime}
    (cs : ix.IndicesSettings) (asr : IndicesSettingsResponse) :
  (ixc.discovery cs).2 = inr asr ->
  (forall lv, ix.UpChild lv ∈ (ix.Collect cs).2
              <-> lv = ixc.label cs \/ is_Some (gvChildren (ix.up cs) !! lv))
  /\ (forall lv, ix.TotalScrapesChild lv ∈ (ix.Collect cs).2
                 <-> lv = ixc.label cs \/ is_Some (cvChildren (ix.totalScrapes cs) !! lv))
  /\ (forall lv, ix.ReadOnlyIndicesChild lv ∈ (ix.Collect cs).2
                 <-> lv = ixc.label cs
                     \/ is_Some (gvChildren (ix.readOnlyIndices cs) !! lv))
  /\ (forall lv, ix.JsonParseFailuresChild lv ∈ (ix.Collect cs).2
                 <-> is_Some (cvChildren (ix.jsonParseFailures cs) !! lv)).
Proof.
  intros Hd. destruct (ixc.discovery cs) as [cs1 r] eqn:H. simpl in Hd. subst r.
  rewrite (IndicesSettings_Collect_ok_sent cs cs1 asr H).
  repeat apply conj; intros lv; rewrite !elem_of_app, !elem_of_GaugeVec_Collect,
    !elem_of_CounterVec_Collect; simpl.
  - split.
    + intros [(lv' & [= <-] & Hs) | [(? & [=] & _) | [(? & [=] & _) | (? & [=] & _)]]].
      rewrite lookup_insert in Hs. case_decide; [by left | by right].
    + intros Hlv. left. exists lv. split; [done |]. rewrite lookup_insert.
      case_decide; [done |]. destruct Hlv; [congruence | done].
  - split.
    + intros [(? & [=] & _) | [(lv' & [= <-] & Hs) | [(? & [=] & _) | (? & [=] & _)]]].
      rewrite lookup_insert in Hs. case_decide; [by left | by right].
    + intros Hlv. right. left. exists lv. split; [done |]. rewrite lookup_insert.
      case_decide; [done |]. destruct Hlv; [congruence | done].
  - split.
    + intros [(? & [=] & _) | [(? & [=] & _) | [(? & [=] & _) | (lv' & [= <-] & Hs)]]].
      rewrite lookup_insert in Hs. case_decide; [by left | by right].
    + intros Hlv. do 3 right. exists lv. split; [done |]. rewrite lookup_insert.
      case_decide; [done |]. destruct Hlv; [congruence | done].
  - split.
    + intros [(? & [=] & _) | [(? & [=] & _) | [(lv' & [= <-] & Hs) | (? & [=] & _)]]].
      done.
    + intros Hlv. right. right. left. by exists lv.
Qed.

(** A new collector on the example cluster has never failed to decode and
    was never described: its first cycle sends up, total_scrapes and
    read_only_indices and no json_parse_failures. *)
Lemma X9_IndicesSettings_sends_witness :
  (ixc.discovery (example.settingsOn 0)).2 = inr example.settings
  /\ ix.UpChild (ixc.label (example.settingsOn 0)) ∈ (ix.Collect (example.settingsOn 0)).2
  /\ (ix.Collect (example.settingsOn 0)).2
     = [ix.UpChild "http://localhost:9200"; ix.TotalScrapesChild "http://localhost:9200";
        ix.ReadOnlyIndicesChild "http://localhost:9200"].
Proof.
  assert (Hd : (ixc.discovery (example.settingsOn 0)).2 = inr example.settings)
    by (vm_compute; reflexivity).
  split; [exact Hd |]. split; [| vm_compute; reflexivity].
  apply (proj1 (X9_IndicesSettings_sends_existing_children
                  (example.settingsOn 0) example.settings Hd)).
  left. reflexivity.
Defined.

Section requests.
Context (rt : Runtime).

Lemma recorded_fetch {A : Type} (decode : string -> string + A)
    (s : @sn.Snapshots (recording.recorder rt)) (u : URL) :
  (sn.client (sn.getAndParseURL decode s u).1).2 = (sn.client s).2 ++ [u].
Proof.
  rewrite snm.fetch_client. simpl. unfold recording.get.
  by destruct (http_Get u (sn.client s).1).
Qed.

Lemma recorded_settings_fetch {A : Type} (decode : string -> string + A)
    (cs : @ix.IndicesSettings (recording.recorder rt)) (u : URL) :
  (ix.client (ix.getAndParseURL decode cs u).1).2 = (ix.client cs).2 ++ [u].
Proof.
  rewrite ixm.settings_fetch_client. simpl. unfold recording.get.
  by destruct (http_Get u (ix.client cs).1).
Qed.

Lemma recorded_afterDetails (s : @sn.Snapshots (recording.recorder rt))
    (repositories : list string) :
  (sn.client (snc.afterDetails s repositories)).2
  = (sn.client s).2 ++ (sn.repositoryURL s <$> repositories).
Proof.
  revert s. induction repositories as [| r rest IH]; intros s; simpl.
  - by rewrite app_nil_r.
  - rewrite IH, recorded_fetch, <- app_assoc. simpl. do 2 f_equal.
    apply list_fmap_ext. intros _ k _.
    destruct (snf.getAndParseURL_frame decodeSnapshotStats s (sn.repositoryURL s r))
      as (Hu & _).
    unfold sn.repositoryURL in *. by rewrite Hu.
Qed.

(** X10: the requests of a cycle, in order.  The snapshots collector asks
    for the list of repositories and then, if that succeeded, once for the
    detail of every listed repository, whether or not the one before
    failed; when discovery fails it asks for nothing more.  The
    indices-settings collector makes the one request for the settings.
    Nothing is asked for again after a failure. *)
Theorem X10_requests_of_a_cycle :
  (forall s : @sn.Snapshots (recording.recorder rt),
      (sn.client (sn.Collect s).1).2
      = (sn.client s).2
        ++ sn.repositoriesURL s
           :: match (snc.discovery s).2 with
              | inr srr => sn.repositoryURL s <$> (@map_range rt _ srr).*1
              | inl _ => []
              end)
  /\ (forall cs : @ix.IndicesSettings (recording.recorder rt),
      (ix.client (ix.Collect cs).1).2 = (ix.client cs).2 ++ [ix.settingsURL cs]).
Proof.
  split.
  - intros s.
    pose proof (recorded_fetch decodeRepositories (snc.started s)
                  (sn.repositoriesURL (snc.started s))) as Hd.
    pose proof (snf.discovery_frame s) as (Hu & _).
    change (sn.getAndParseURL decodeRepositories (snc.started s)
              (sn.repositoriesURL (snc.started s))) with (snc.discovery s) in Hd.
    destruct (snc.discovery s) as [s1 [err | srr]] eqn:H; simpl in Hd, Hu |- *.
    + by rewrite (snf.Collect_failed s s1 err H).
    + rewrite (snf.Collect_ok s s1 srr H). simpl.
      rewrite recorded_afterDetails, Hd, <- app_assoc. simpl. do 2 f_equal.
      apply list_fmap_ext. intros _ k _. unfold sn.repositoryURL. by rewrite Hu.
  - intros cs.
    pose proof (recorded_settings_fetch decodeIndicesSettings (ixc.started cs)
                  (ix.settingsURL (ixc.started cs))) as Hd.
    change (ix.getAndParseURL decodeIndicesSettings (ixc.started cs)
              (ix.settingsURL (ixc.started cs))) with (ixc.discovery cs) in Hd.
    destruct (ixc.discovery cs) as [cs1 [err | asr]] eqn:H; simpl in Hd.
    + by rewrite (ixf.settings_Collect_failed cs cs1 err H).
    + by rewrite (ixf.settings_Collect_ok_state cs cs1 asr H).
Qed.

End requests.

(** The five requests of a cycle on the example cluster in condition 0, and
    the single one in condition 1. *)
Example requests_on_the_example_cluster :
  Path <$> (sn.client (sn.Collect (recorded.snapshotsOn 0)).1).2
  = ["/_snapshot"; "/_snapshot/c/_all"; "/_snapshot/a/_all"; "/_snapshot/b/_all";
     "/_snapshot/d/_all"]
  /\ Path <$> (sn.client (sn.Collect (recorded.snapshotsOn 1)).1).2 = ["/_snapshot"]
  /\ Path <$> (ix.client (ix.Collect (recorded.settingsOn 0)).1).2 = ["/_all/_settings"].
Proof. vm_compute. done. Qed.

(** X11: what Collect sends for a stored payload with records: the number
    of snapshots and the whole seconds of the start of the first record,
    labelled with the repository, then the seven values of the last record,
    labelled with the repository and the state and version of that last
    record. *)
Theorem X11_samples_of_a_payload `{rt : Runtime} (s : sn.Snapshots) (name : string)
    (first : SnapshotStatDataResponse) (rest : list SnapshotStatDataResponse)
    (r : SnapshotStatDataResponse) :
  snc.constructed s ->
  last (first :: rest) = Some r ->
  shown <$> snc.dataSamples (snc.samplesOf s (name, mkStats (first :: rest)))
  = [ ("Number of snapshots in a repository", [name],
       float64_of_int (len (first :: rest)));
      ("Timestamp of the oldest snapshot", [name],
       float64_of_int (int64_quo (StartTimeInMillis first) 1000));
      ("Number of indices in the last snapshot", [name; State r; Version r],
       float64_of_int (len (Indices r)));
      ("Last snapshot start timestamp", [name; State r; Version r],
       float64_of_int (int64_quo (StartTimeInMillis r) 1000));
      ("Last snapshot end timestamp", [name; State r; Version r],
       float64_of_int (int64_quo (EndTimeInMillis r) 1000));
      ("Last snapshot number of failures", [name; State r; Version r],
       float64_of_int (len (Failures r)));
      ("Last snapshot total shards", [name; State r; Version r],
       float64_of_int (Total (Shards r)));
      ("Last snapshot failed shards", [name; State r; Version r],
       float64_of_int (Failed (Shards r)));
      ("Last snapshot successful shards", [name; State r; Version r],
       float64_of_int (Successful (Shards r))) ].
Proof.
  intros [Hs Hr] Hlast. unfold snc.samplesOf, sn.collectRepository. simpl.
  rewrite Hs, Hr. unfold sn.newRepositoryMetrics, sn.newSnapshotMetrics.
  rewrite index_last by done. rewrite Hlast.
  destruct (Z.eqb_spec (len (first :: rest)) 0) as [H0 | _].
  { unfold len in H0. simpl in H0. lia. }
  reflexivity.
Qed.

Lemma X11_samples_of_a_payload_witness :
  snc.constructed (example.snapshotsOn 0)
  /\ last [example.firstSnapshot; example.secondSnapshot] = Some example.secondSnapshot
  /\ (shown <$> snc.dataSamples
                  (snc.samplesOf (example.snapshotsOn 0)
                     ("b", mkStats [example.firstSnapshot; example.secondSnapshot])))
       !! 1%nat
     = Some ("Timestamp of the oldest snapshot", ["b"], float64_of_int 100).
Proof.
  assert (Hc : snc.constructed (example.snapshotsOn 0)) by (split; reflexivity).
  assert (Hl : last [example.firstSnapshot; example.secondSnapshot]
               = Some example.secondSnapshot) by reflexivity.
  split; [exact Hc |]. split; [exact Hl |].
  rewrite (X11_samples_of_a_payload (example.snapshotsOn 0) "b" example.firstSnapshot
             [example.secondSnapshot] example.secondSnapshot Hc Hl).
  reflexivity.
Defined.

(** X12: Collect of the indices-settings collector writes, in each of its
    four vectors, the child for its own URL and no other: a child under any
    other label value is after the cycle what it was before, whether the
    fetch succeeded or not. *)
Theorem X12_IndicesSettings_other_children_untouched `{rt : Runtime}
    (cs : ix.IndicesSettings) (lv : string) :
  lv <> ixc.label cs ->
  gvChildren (ix.up (ix.Collect cs).1) !! lv = gvChildren (ix.up cs) !! lv
  /\ gvChildren (ix.readOnlyIndices (ix.Collect cs).1) !! lv
     = gvChildren (ix.readOnlyIndices cs) !! lv
  /\ cvChildren (ix.totalScrapes (ix.Collect cs).1) !! lv
     = cvChildren (ix.totalScrapes cs) !! lv
  /\ cvChildren (ix.jsonParseFailures (ix.Collect cs).1) !! lv
     = cvChildren (ix.jsonParseFailures cs) !! lv.
Proof.
  intros Hne.
  rewrite ixm.settings_Collect_totalScrapes, ixf.settings_Collect_jsonParseFailures.
  pose proof (ixf.settings_discovery_frame cs) as (_ & Hup & Hro & _).
  pose proof (ixm.settings_fetch_counter_others decodeIndicesSettings (ixc.started cs)
                (ix.settingsURL (ixc.started cs)) lv Hne) as Hj.
  change (ix.getAndParseURL decodeIndicesSettings (ixc.started cs)
            (ix.settingsURL (ixc.started cs))) with (ixc.discovery cs) in Hj.
  change (ix.jsonParseFailures (ixc.started cs)) with (ix.jsonParseFailures cs) in Hj.
  destruct (ixc.discovery cs) as [cs1 [err | asr]] eqn:H; simpl in *.
  - rewrite (ixf.settings_Collect_failed cs cs1 err H). simpl.
    rewrite !lookup_insert_ne by done. by rewrite Hup, Hro.
  - rewrite (ixf.settings_Collect_ok_state cs cs1 asr H). simpl.
    rewrite !lookup_insert_ne by done. by rewrite Hup, Hro.
Qed.

Lemma X12_IndicesSettings_other_children_witness :
  "http://elsewhere:9200" <> ixc.label (example.settingsOn 0)
  /\ gvChildren (ix.up (ix.Collect (example.settingsOn 0)).1) !! "http://elsewhere:9200"
     = None.
Proof.
  assert (Hne : "http://elsewhere:9200" <> ixc.label (example.settingsOn 0))
    by (vm_compute; discriminate).
  split; [exact Hne |].
  rewrite (proj1 (X12_IndicesSettings_other_children_untouched
                    (example.settingsOn 0) "http://elsewhere:9200" Hne)).
  reflexivity.
Defined.

(** X13: the URL and the two tables of a snapshots collector are after any
    number of Collect calls what they were before: a collector that has the
    tables of NewSnapshots keeps them. *)
Theorem X13_tables_fixed `{rt : Runtime} (n : nat) (s : sn.Snapshots) :
  sn.url (snc.repeatCollect n s) = sn.url s
  /\ sn.snapshotMetrics (snc.repeatCollect n s) = sn.snapshotMetrics s
  /\ sn.repositoryMetrics (snc.repeatCollect n s) = sn.repositoryMetrics s.
Proof.
  revert s. induction n as [| n IH]; intros s; simpl; [done |].
  destruct (IH (sn.Collect s).1) as (-> & -> & ->).
  by destruct (snm.Collect_descriptors s) as (-> & _ & _ & _ & -> & ->).
Qed.

(** ** The parse-failure counter against the answers of the cluster *)

Lemma detailRefusals_counts `{rt : Runtime} (s0 s1 : sn.Snapshots)
    (repositories : list string) :
  sn.url s1 = sn.url s0 ->
  length (filter (fun ke => isDecodeError ke.2 = true)
            (snc.failed (snc.detailResults s1 repositories)))
  = answers.detailRefusals s0 (sn.client s1) repositories.
Proof.
  revert s1. induction repositories as [| k rest IH]; intros s1 Hu; simpl; [done |].
  assert (Hk : sn.repositoryURL s1 k = sn.repositoryURL s0 k)
    by (unfold sn.repositoryURL; by rewrite Hu).
  pose proof (snm.fetch_refused decodeSnapshotStats s1 (sn.repositoryURL s1 k)) as Hr.
  pose proof (snm.fetch_client decodeSnapshotStats s1 (sn.repositoryURL s1 k)) as Hcl.
  destruct (snf.getAndParseURL_frame decodeSnapshotStats s1 (sn.repositoryURL s1 k))
    as (Hu' & _).
  rewrite Hk in *.
  destruct (sn.getAndParseURL decodeSnapshotStats s1 (sn.repositoryURL s0 k))
    as [s2 res]. simpl in *.
  destruct (http_Get (sn.repositoryURL s0 k) (sn.client s1)) as [r w']. simpl in *.
  subst w'. rewrite <- (IH s2) by congruence. rewrite <- Hr.
  unfold snc.failed. simpl. destruct res as [e | p]; simpl; [| done].
  destruct (isDecodeError e) eqn:He.
  - by rewrite filter_cons_True by done.
  - by rewrite filter_cons_False by (simpl; congruence).
Qed.

(** The decode failures a cycle of the snapshots collector meets are those
    among the answers of the cluster. *)
Lemma snapshotsRefusals_decodeFailures `{rt : Runtime} (s : sn.Snapshots) :
  answers.snapshotsRefusals s = snc.decodeFailures s.
Proof.
  unfold answers.snapshotsRefusals, snc.decodeFailures, snc.details.
  pose proof (snm.fetch_refused decodeRepositories (snc.started s)
                (sn.repositoriesURL (snc.started s))) as Hr.
  pose proof (snm.fetch_decoded decodeRepositories (snc.started s)
                (sn.repositoriesURL (snc.started s))) as Hdec.
  pose proof (snm.fetch_client decodeRepositories (snc.started s)
                (sn.repositoriesURL (snc.started s))) as Hcl.
  pose proof (snf.discovery_frame s) as (Hu & _).
  change (sn.getAndParseURL decodeRepositories (snc.started s)
            (sn.repositoriesURL (snc.started s))) with (snc.discovery s) in Hr, Hdec, Hcl.
  change (http_Get (sn.repositoriesURL (snc.started s)) (sn.client (snc.started s)))
    with (http_Get (sn.repositoriesURL s) (sn.client s)) in Hr, Hdec, Hcl.
  destruct (http_Get (sn.repositoriesURL s) (sn.client s)) as [r w]. simpl in *.
  rewrite <- Hr, Hdec. f_equal.
  destruct (snc.discovery s) as [s1 [err | srr]]; simpl in *; [done |].
  subst w. symmetry. by apply detailRefusals_counts.
Qed.

Lemma settingsRefusals_decodeFailures `{rt : Runtime} (cs : ix.IndicesSettings) :
  answers.settingsRefusals cs = ixc.decodeFailures cs.
Proof.
  unfold answers.settingsRefusals, ixc.decodeFailures, ixc.discovery.
  by rewrite ixm.settings_fetch_refused.
Qed.

(** C7: in both collectors the counter jsonParseFailures goes up in a cycle
    by the number of JSON decode failures among the answers of the cluster
    in that cycle, an answer with status 200 and a body the decoder refuses,
    be it the answer to the discovery request or to a detail request, so the
    counter never goes down over any number of Collect calls; a single fetch
    adds one exactly on such an answer and fails in the decoder exactly
    then; an answer with another status is an error that carries the status
    and leaves the counter as it was. *)
Theorem C7_jsonParseFailures_counts_decode_failures `{rt : Runtime} :
  (forall s : sn.Snapshots,
      counterValue (sn.jsonParseFailures (sn.Collect s).1)
      = (counterValue (sn.jsonParseFailures s) + N.of_nat (answers.snapshotsRefusals s))%N
      /\ answers.snapshotsRefusals s = snc.decodeFailures s)
  /\ (forall (n : nat) (s : sn.Snapshots),
      (counterValue (sn.jsonParseFailures s)
       <= counterValue (sn.jsonParseFailures (snc.repeatCollect n s)))%N)
  /\ (forall cs : ix.IndicesSettings,
      CounterVec_value (ixc.label cs) (ix.jsonParseFailures (ix.Collect cs).1)
      = (CounterVec_value (ixc.label cs) (ix.jsonParseFailures cs)
         + N.of_nat (answers.settingsRefusals cs))%N
      /\ answers.settingsRefusals cs = ixc.decodeFailures cs)
  /\ (forall (n : nat) (cs : ix.IndicesSettings),
      (CounterVec_value (ixc.label cs) (ix.jsonParseFailures cs)
       <= CounterVec_value (ixc.label cs)
            (ix.jsonParseFailures (ixc.repeatCollect n cs)))%N)
  /\ (forall (A : Type) (decode : string -> string + A) (s : sn.Snapshots) (u : URL),
      counterValue (sn.jsonParseFailures (sn.getAndParseURL decode s u).1)
      = (counterValue (sn.jsonParseFailures s)
         + (if refused decode (http_Get u (sn.client s)).1 then 1 else 0))%N
      /\ parseFailed (sn.getAndParseURL decode s u).2
         = refused decode (http_Get u (sn.client s)).1)
  /\ (forall (A : Type) (decode : string -> string + A) (cs : ix.IndicesSettings) (u : URL),
      CounterVec_value (ixc.label cs) (ix.jsonParseFailures (ix.getAndParseURL decode cs u).1)
      = (CounterVec_value (ixc.label cs) (ix.jsonParseFailures cs)
         + (if refused decode (http_Get u (ix.client cs)).1 then 1 else 0))%N
      /\ parseFailed (ix.getAndParseURL decode cs u).2
         = refused decode (http_Get u (ix.client cs)).1)
  /\ (forall (A : Type) (decode : string -> string + A) (s : sn.Snapshots) (u : URL)
        (res : Response) (w : World),
      http_Get u (sn.client s) = (inl res, w) ->
      StatusCode res <> StatusOK ->
      (sn.getAndParseURL decode s u).2 = inl (StatusError (StatusCode res))
      /\ sn.jsonParseFailures (sn.getAndParseURL decode s u).1 = sn.jsonParseFailures s)
  /\ (forall (A : Type) (decode : string -> string + A) (cs : ix.IndicesSettings) (u : URL)
        (res : Response) (w : World),
      http_Get u (ix.client cs) = (inl res, w) ->
      StatusCode res <> StatusOK ->
      (ix.getAndParseURL decode cs u).2 = inl (StatusError (StatusCode res))
      /\ ix.jsonParseFailures (ix.getAndParseURL decode cs u).1 = ix.jsonParseFailures cs).
Proof.
  repeat apply conj.
  - intros s. split; [| apply snapshotsRefusals_decodeFailures].
    rewrite snapshotsRefusals_decodeFailures. apply snf.Collect_counter.
  - apply snf.repeatCollect_counter.
  - intros cs. split; [| apply settingsRefusals_decodeFailures].
    rewrite settingsRefusals_decodeFailures. apply ixf.settings_Collect_counter.
  - apply IndicesSettings_repeatCollect_counter.
  - intros. split; [apply snm.fetch_counter_refused | apply snm.fetch_refused].
  - intros. split; [apply ixm.settings_fetch_counter_refused | apply ixm.settings_fetch_refused].
  - intros. by eapply snf.getAndParseURL_status.
  - intros. by eapply ixf.settings_getAndParseURL_status.
Qed.

(** On the example cluster.  In condition 0 a cycle of the snapshots
    collector gets one body that is not JSON (the detail of d) and one
    status 500 (the detail of a): the counter goes from 0 to 1 and is not
    below 1 after three more cycles.  In condition 2 the settings are not
    JSON: the counter of the indices-settings collector goes from 0 to 1.
    In condition 1 the settings answer 500: the error carries 500 and the
    counter stays 0. *)
Lemma C7_jsonParseFailures_witness :
  answers.snapshotsRefusals (example.snapshotsOn 0) = 1%nat
  /\ counterValue (sn.jsonParseFailures (sn.Collect (example.snapshotsOn 0)).1) = 1%N
  /\ (counterValue (sn.jsonParseFailures (sn.Collect (example.snapshotsOn 0)).1)
      <= counterValue
           (sn.jsonParseFailures
              (snc.repeatCollect 3 (sn.Collect (example.snapshotsOn 0)).1)))%N
  /\ (sn.getAndParseURL example.decodeStats (example.snapshotsOn 0)
        (sn.repositoryURL (example.snapshotsOn 0) "a")).2
     = inl (StatusError 500)
  /\ sn.jsonParseFailures
       (sn.getAndParseURL example.decodeStats (example.snapshotsOn 0)
          (sn.repositoryURL (example.snapshotsOn 0) "a")).1
     = sn.jsonParseFailures (example.snapshotsOn 0)
  /\ answers.settingsRefusals (example.settingsOn 2) = 1%nat
  /\ CounterVec_value (ixc.label (example.settingsOn 2))
       (ix.jsonParseFailures (ix.Collect (example.settingsOn 2)).1) = 1%N
  /\ (ix.getAndParseURL example.decodeSettings (example.settingsOn 1)
        (ix.settingsURL (example.settingsOn 1))).2
     = inl (StatusError 500)
  /\ CounterVec_value (ixc.label (example.settingsOn 1))
       (ix.jsonParseFailures (ix.Collect (example.settingsOn 1)).1) = 0%N.
Proof.
  destruct (@C7_jsonParseFailures_counts_decode_failures example.cluster)
    as (H1 & H2 & H3 & _ & _ & _ & H7 & H8).
  split; [vm_compute; reflexivity |].
  split; [rewrite (proj1 (H1 _)); vm_compute; reflexivity |].
  split; [apply (H2 3%nat (sn.Collect (example.snapshotsOn 0)).1) |].
  assert (Hget : example.get (sn.repositoryURL (example.snapshotsOn 0) "a")
                   (sn.client (example.snapshotsOn 0))
                 = (inl {| StatusCode := 500; Body := ""; CloseErr := None |}, 0%nat))
    by (vm_compute; reflexivity).
  assert (Hne : StatusCode {| StatusCode := 500; Body := ""; CloseErr := None |} <> StatusOK)
    by (vm_compute; discriminate).
  destruct (H7 _ example.decodeStats _ _ _ _ Hget Hne) as [Ha Hb].
  split; [exact Ha |]. split; [exact Hb |].
  split; [vm_compute; reflexivity |].
  split; [rewrite (proj1 (H3 _)); vm_compute; reflexivity |].
  assert (Hget' : example.get (ix.settingsURL (example.settingsOn 1))
                    (ix.client (example.settingsOn 1))
                  = (inl {| StatusCode := 500; Body := ""; CloseErr := None |}, 1%nat))
    by (vm_compute; reflexivity).
  split; [exact (proj1 (H8 _ example.decodeSettings _ _ _ _ Hget' Hne)) |].
  rewrite (proj1 (H3 _)). vm_compute. reflexivity.
Defined.
